(** * Mesh generation and scene traversal of the toy-rocket script

    A shallow embedding of [import plotly.py]: the five primitive mesh
    generators, the affine transform operators and the recursive scene
    builder, followed by the properties stated about them.

    Numbers.  Python [int] is [Z] (with Python's floor modulo, which is
    [Z.modulo]).  numpy's float64 coordinates are idealised as real
    numbers [R]: [np.cos], [np.sin] and [np.pi] are [cos], [sin] and
    [PI]; rounding is not part of this model, and every statement about
    coordinates is a statement over real arithmetic.  Module [F64]
    embeds the cube generator and [translate], whose arithmetic is only
    [+], [-] and [/], over binary64 floats, to show where rounding
    separates the program from the real-number model.

    Arrays.  An (n,3) vertex array is a [list vec3], an (n,3) face array
    a [list face]; row order is the list order.

    Effects.  Python exceptions are the [Raise] branch of [result];
    [print] appends a line to the standard output carried by the monad
    [io] of the scene builder. *)

From Stdlib Require Import String DecimalString.
From Stdlib Require Import Floats.PrimFloat.
From Stdlib Require Import Reals Lra Lia ZArith List.
Import ListNotations.

(** ** Python values and control *)

Module Py.

Inductive exn : Type :=
| ValueError (msg : string)
| TypeError (callee : string)
| KeyError (key : string)
| ZeroDivisionError (msg : string).

Inductive result (A : Type) : Type :=
| Ok (a : A)
| Raise (e : exn).
Arguments Ok {A} a.
Arguments Raise {A} e.

Definition bind {A B} (r : result A) (k : A -> result B) : result B :=
  match r with
  | Ok a => k a
  | Raise e => Raise e
  end.

Definition fmap {A B} (f : A -> B) (r : result A) : result B :=
  bind r (fun a => Ok (f a)).

(** [range(n)]: 0, 1, ..., n-1, empty when [n <= 0]. *)
Definition range (n : Z) : list Z :=
  map Z.of_nat (seq 0 (Z.to_nat n)).

(** [str(n)] of an integer, as an f-string or [%s] prints it. *)
Definition str (n : Z) : string :=
  NilZero.string_of_int (Z.to_int n).

End Py.
Import Py.

Declare Scope py_scope.
Delimit Scope py_scope with py.
Notation "x <- r ;; k" := (Py.bind r (fun x => k))
  (at level 61, r at next level, right associativity) : py_scope.

(** ** Vectors, faces and the numpy operations the script uses *)

Definition vec3 : Type := (R * R * R)%type.
Definition face : Type := (Z * Z * Z)%type.
Definition mat3 : Type := (vec3 * vec3 * vec3)%type.

Definition face_indices (f : face) : list Z :=
  let '(a, b, c) := f in [a; b; c].

Module Np.
Local Open Scope R_scope.

Definition pi : R := PI.

Definition deg2rad (d : R) : R := d * (pi / 180).

(** [np.linspace(start, stop, num, endpoint=False)]. *)
Definition linspace (start stop : R) (num : Z) : result (list R) :=
  if (num <? 0)%Z then
    Raise (ValueError ("Number of samples, " ++ str num ++ ", must be non-negative.")%string)
  else
    let step := (stop - start) / IZR num in
    Ok (map (fun i => IZR i * step + start) (range num)).

(** [np.full(n, v)] for a non-negative [n]. *)
Definition full (n : Z) (v : R) : list R := repeat v (Z.to_nat n).

(** [np.column_stack([a, b, c])] of three columns of one length. *)
Definition column_stack (a b c : list R) : list vec3 :=
  map (fun p => let '(x, (y, z)) := p in (x, y, z)) (combine a (combine b c)).

(** [np.vstack(blocks)]. *)
Definition vstack (blocks : list (list vec3)) : list vec3 := concat blocks.

(** [M.T]. *)
Definition T (m : mat3) : mat3 :=
  let '((a00, a01, a02), (a10, a11, a12), (a20, a21, a22)) := m in
  ((a00, a10, a20), (a01, a11, a21), (a02, a12, a22)).

(** One row of [vertices @ M]. *)
Definition row_matmul (v : vec3) (m : mat3) : vec3 :=
  let '(x, y, z) := v in
  let '((a00, a01, a02), (a10, a11, a12), (a20, a21, a22)) := m in
  (x * a00 + y * a10 + z * a20,
   x * a01 + y * a11 + z * a21,
   x * a02 + y * a12 + z * a22).

(** [vertices @ M]. *)
Definition matmul (vertices : list vec3) (m : mat3) : list vec3 :=
  map (fun v => row_matmul v m) vertices.

(** [vertices + np.array([a, b, c])], broadcast over the rows. *)
Definition add_row (vertices : list vec3) (w : vec3) : list vec3 :=
  let '(a, b, c) := w in
  map (fun v => let '(x, y, z) := v in (x + a, y + b, z + c)) vertices.

(** [vertices * np.array([a, b, c])], broadcast over the rows. *)
Definition mul_row (vertices : list vec3) (w : vec3) : list vec3 :=
  let '(a, b, c) := w in
  map (fun v => let '(x, y, z) := v in (x * a, y * b, z * c)) vertices.

End Np.

(** ** 1. Primitive generation functions *)

Section Generators.
Local Open Scope R_scope.
Local Open Scope py_scope.

Definition create_cube_mesh (center size : vec3) : list vec3 * list face :=
  let '(x, y, z) := center in
  let '(size0, size1, size2) := size in
  let '(sx, sy, sz) := (size0 / 2, size1 / 2, size2 / 2) in
  let v :=
    [ (x - sx, y - sy, z - sz);
      (x + sx, y - sy, z - sz);
      (x + sx, y + sy, z - sz);
      (x - sx, y + sy, z - sz);
      (x - sx, y - sy, z + sz);
      (x + sx, y - sy, z + sz);
      (x + sx, y + sy, z + sz);
      (x - sx, y + sy, z + sz) ] in
  let faces : list face :=
    [ (0, 1, 2); (0, 2, 3);
      (4, 5, 6); (4, 6, 7);
      (0, 1, 5); (0, 5, 4);
      (3, 2, 6); (3, 6, 7);
      (0, 3, 7); (0, 7, 4);
      (1, 2, 6); (1, 6, 5) ]%Z in
  (v, faces).

Definition create_cylinder_mesh (center : vec3) (radius height : R) (segments : Z)
  : result (list vec3 * list face) :=
  let '(c0, c1, c2) := center in
  theta <- Np.linspace 0 (2 * Np.pi) segments ;;
  let x_circle := map (fun t => radius * cos t) theta in
  let y_circle := map (fun t => radius * sin t) theta in
  let v_bottom :=
    Np.column_stack (map (fun a => a + c0) x_circle) (map (fun a => a + c1) y_circle)
                    (Np.full segments (c2 - height / 2)) in
  let v_top :=
    Np.column_stack (map (fun a => a + c0) x_circle) (map (fun a => a + c1) y_circle)
                    (Np.full segments (c2 + height / 2)) in
  let v_center_bottom := [ (c0, c1, c2 - height / 2) ] in
  let v_center_top := [ (c0, c1, c2 + height / 2) ] in
  let vertices := Np.vstack [v_bottom; v_top; v_center_bottom; v_center_top] in
  let idx_center_bottom := (2 * segments)%Z in
  let idx_center_top := (2 * segments + 1)%Z in
  let faces : list face :=
    map (fun i => (i, (i + 1) mod segments, idx_center_bottom)%Z) (range segments)
    ++ map (fun i => (segments + i, segments + (i + 1) mod segments, idx_center_top)%Z)
           (range segments)
    ++ flat_map (fun i =>
                   let v0 := i in
                   let v1 := ((i + 1) mod segments)%Z in
                   let v2 := (segments + (i + 1) mod segments)%Z in
                   let v3 := (segments + i)%Z in
                   [ (v0, v1, v2); (v0, v2, v3) ])
                (range segments) in
  Ok (vertices, faces).

Definition create_cone_mesh (center : vec3) (radius height : R) (segments : Z)
  : result (list vec3 * list face) :=
  let '(c0, c1, c2) := center in
  theta <- Np.linspace 0 (2 * Np.pi) segments ;;
  let x_circle := map (fun t => radius * cos t) theta in
  let y_circle := map (fun t => radius * sin t) theta in
  let v_base :=
    Np.column_stack (map (fun a => a + c0) x_circle) (map (fun a => a + c1) y_circle)
                    (Np.full segments c2) in
  let v_apex := [ (c0, c1, c2 + height) ] in
  let v_center_base := [ (c0, c1, c2) ] in
  let vertices := Np.vstack [v_base; v_apex; v_center_base] in
  let idx_apex := segments in
  let idx_center_base := (segments + 1)%Z in
  let faces : list face :=
    map (fun i =>
           let v0 := i in
           let v1 := ((i + 1) mod segments)%Z in
           (v0, v1, idx_apex)) (range segments)
    ++ map (fun i => (i, (i + 1) mod segments, idx_center_base)%Z) (range segments) in
  Ok (vertices, faces).

Definition create_torus_mesh (center : vec3) (major_radius minor_radius : R)
           (major_segments minor_segments : Z) : list vec3 * list face :=
  let '(c0, c1, c2) := center in
  let vertices :=
    flat_map (fun i =>
      let phi := 2 * Np.pi * IZR i / IZR major_segments in
      map (fun j =>
        let theta := 2 * Np.pi * IZR j / IZR minor_segments in
        let x := (major_radius + minor_radius * cos theta) * cos phi + c0 in
        let y := (major_radius + minor_radius * cos theta) * sin phi + c1 in
        let z := minor_radius * sin theta + c2 in
        (x, y, z)) (range minor_segments)) (range major_segments) in
  let faces : list face :=
    flat_map (fun i =>
      flat_map (fun j =>
        let v0 := (i * minor_segments + j)%Z in
        let v1 := (i * minor_segments + (j + 1) mod minor_segments)%Z in
        let v2 := ((i + 1) mod major_segments * minor_segments
                   + (j + 1) mod minor_segments)%Z in
        let v3 := ((i + 1) mod major_segments * minor_segments + j)%Z in
        [ (v0, v1, v2); (v0, v2, v3) ]) (range minor_segments)) (range major_segments) in
  (vertices, faces).

(** [i / segments] divides two Python integers: with [segments = 0]
    the first pass of the outer loop raises. *)
Definition create_sphere_mesh (center : vec3) (radius : R) (segments : Z)
  : result (list vec3 * list face) :=
  let '(c0, c1, c2) := center in
  if (segments =? 0)%Z then Raise (ZeroDivisionError "division by zero") else
  let vertices :=
    flat_map (fun i =>
      let lat := Np.pi * (-0.5 + IZR i / IZR segments) in
      map (fun j =>
        let lon := 2 * Np.pi * IZR j / IZR segments in
        let x := radius * cos lat * cos lon + c0 in
        let y := radius * cos lat * sin lon + c1 in
        let z := radius * sin lat + c2 in
        (x, y, z)) (range (segments + 1))) (range (segments + 1)) in
  let faces : list face :=
    flat_map (fun i =>
      flat_map (fun j =>
        let v0 := (i * (segments + 1) + j)%Z in
        let v1 := (v0 + 1)%Z in
        let v2 := ((i + 1) * (segments + 1) + j + 1)%Z in
        let v3 := ((i + 1) * (segments + 1) + j)%Z in
        [ (v0, v1, v2); (v0, v2, v3) ]) (range segments)) (range segments) in
  Ok (vertices, faces).

End Generators.

(** ** 2. Transformation functions *)

Section Transformations.
Local Open Scope R_scope.

Definition translate (vertices : list vec3) (tx ty tz : R) : list vec3 :=
  Np.add_row vertices (tx, ty, tz).

Definition rotate_x (vertices : list vec3) (angle_deg : R) : list vec3 :=
  let angle_rad := Np.deg2rad angle_deg in
  let Rx : mat3 :=
    ( (1, 0, 0),
      (0, cos angle_rad, - sin angle_rad),
      (0, sin angle_rad, cos angle_rad) ) in
  Np.matmul vertices (Np.T Rx).

Definition rotate_y (vertices : list vec3) (angle_deg : R) : list vec3 :=
  let angle_rad := Np.deg2rad angle_deg in
  let Ry : mat3 :=
    ( (cos angle_rad, 0, sin angle_rad),
      (0, 1, 0),
      (- sin angle_rad, 0, cos angle_rad) ) in
  Np.matmul vertices (Np.T Ry).

Definition rotate_z (vertices : list vec3) (angle_deg : R) : list vec3 :=
  let angle_rad := Np.deg2rad angle_deg in
  let Rz : mat3 :=
    ( (cos angle_rad, - sin angle_rad, 0),
      (sin angle_rad, cos angle_rad, 0),
      (0, 0, 1) ) in
  Np.matmul vertices (Np.T Rz).

Definition scale (vertices : list vec3) (sx sy sz : R) : list vec3 :=
  Np.mul_row vertices (sx, sy, sz).

End Transformations.

(** ** 2b. The cube and the translation over binary64

    The same code with the arithmetic numpy and Python perform: IEEE
    binary64 [+], [-] and [/], rounding to nearest. *)

Module F64.
Local Open Scope float_scope.

Definition vec3 : Type := (float * float * float)%type.

Definition create_cube_mesh (center size : vec3) : list vec3 * list face :=
  let '(x, y, z) := center in
  let '(size0, size1, size2) := size in
  let '(sx, sy, sz) := (size0 / 2, size1 / 2, size2 / 2) in
  let v :=
    [ (x - sx, y - sy, z - sz);
      (x + sx, y - sy, z - sz);
      (x + sx, y + sy, z - sz);
      (x - sx, y + sy, z - sz);
      (x - sx, y - sy, z + sz);
      (x + sx, y - sy, z + sz);
      (x + sx, y + sy, z + sz);
      (x - sx, y + sy, z + sz) ] in
  let faces : list face :=
    [ (0, 1, 2); (0, 2, 3);
      (4, 5, 6); (4, 6, 7);
      (0, 1, 5); (0, 5, 4);
      (3, 2, 6); (3, 6, 7);
      (0, 3, 7); (0, 7, 4);
      (1, 2, 6); (1, 6, 5) ]%Z in
  (v, faces).

(** [vertices + np.array([tx, ty, tz])]. *)
Definition translate (vertices : list vec3) (tx ty tz : float) : list vec3 :=
  map (fun v : vec3 => let '(x, y, z) := v in (x + tx, y + ty, z + tz)) vertices.

(** The center [c + v], computed as the caller computes it. *)
Definition vadd (c v : vec3) : vec3 :=
  let '(c0, c1, c2) := c in
  let '(v0, v1, v2) := v in
  (c0 + v0, c1 + v1, c2 + v2).

(** The first coordinate of the first vertex of a mesh. *)
Definition first_x (m : list vec3 * list face) : float :=
  match fst m with
  | (x, _, _) :: _ => x
  | [] => 0
  end.

(** The binary64 values nearest to 0.1 and 0.2, as Python reads the
    literals [0.1] and [0.2]. *)
Definition tenth : float := 0x1.999999999999ap-4.
Definition fifth : float := 0x1.999999999999ap-3.

End F64.

(** ** 3. Scene graph *)

(** One entry of a node's ["transformations"] list: a dict read through
    the keys ["type"] and ["params"].  A key that is absent is [None];
    reading it raises [KeyError]. *)
Record transform_info : Type := Entry {
  t_type : option string;
  t_params : option (list R)
}.

(** The dict literal [{"type": type, "params": params}]. *)
Definition Transform (type : string) (params : list R) : transform_info :=
  Entry (Some type) (Some params).

(** A scene-graph node: a dict read through a fixed set of keys.  A key
    that is absent is [None]; reading it raises [KeyError]. *)
#[warnings="-register-all"]
Inductive scene_graph_node : Type := Node {
  node_type : option string;
  shape : option string;
  color : option string;
  initial_size : option vec3;
  initial_radius : option R;
  initial_height : option R;
  initial_major_radius : option R;
  initial_minor_radius : option R;
  transformations : option (list transform_info);
  children : option (list scene_graph_node)
}.

(** ** 4. Scene traversal *)

(** The keyword arguments of [go.Mesh3d] as the builder passes them. *)
Record Mesh3d : Type := {
  m_x : list R; m_y : list R; m_z : list R;
  m_i : list Z; m_j : list Z; m_k : list Z;
  m_color : string;
  m_opacity : R;
  m_flatshading : bool
}.

(** Standard output so far, and the value or the exception. *)
Module IO.

Definition io (A : Type) : Type := (list string * result A)%type.

Definition ret {A} (a : A) : io A := ([], Ok a).

Definition bind {A B} (m : io A) (k : A -> io B) : io B :=
  match m with
  | (out, Ok a) => let '(out', r) := k a in (out ++ out', r)
  | (out, Raise e) => (out, Raise e)
  end.

Definition print (line : string) : io unit := ([line], Ok tt).

Definition lift {A} (r : result A) : io A := ([], r).

Definition raise {A} (e : exn) : io A := ([], Raise e).

(** [d[key]]. *)
Definition getitem {A} (key : string) (field : option A) : io A :=
  match field with
  | Some a => ret a
  | None => raise (KeyError key)
  end.

Definition stdout {A} (m : io A) : list string := fst m.
Definition outcome {A} (m : io A) : result A := snd m.

End IO.
Import IO.

Declare Scope io_scope.
Delimit Scope io_scope with io.
Notation "x <- m ;; k" := (IO.bind m (fun x => k))
  (at level 61, m at next level, right associativity) : io_scope.
Notation "m ;; k" := (IO.bind m (fun _ => k))
  (at level 61, right associativity) : io_scope.

Section SceneTraversal.
Local Open Scope R_scope.
Local Open Scope string_scope.
Local Open Scope list_scope.
Local Open Scope io_scope.

(** [f(vertices, *t_params)] for a function of one further argument. *)
Definition call_star1 (callee : string) (f : R -> list vec3) (t_params : list R)
  : io (list vec3) :=
  match t_params with
  | [a] => ret (f a)
  | _ => raise (TypeError callee)
  end.

(** [f(vertices, *t_params)] for a function of three further arguments. *)
Definition call_star3 (callee : string) (f : R -> R -> R -> list vec3) (t_params : list R)
  : io (list vec3) :=
  match t_params with
  | [a; b; c] => ret (f a b c)
  | _ => raise (TypeError callee)
  end.

(** The body of the loop over ["transformations"]. *)
Definition apply_transform (vertices : list vec3) (info : transform_info)
  : io (list vec3) :=
  t_type <- getitem "type" (t_type info) ;;
  t_params <- getitem "params" (t_params info) ;;
  if t_type =? "translate" then call_star3 "translate" (translate vertices) t_params
  else if t_type =? "rotate_x" then call_star1 "rotate_x" (rotate_x vertices) t_params
  else if t_type =? "rotate_y" then call_star1 "rotate_y" (rotate_y vertices) t_params
  else if t_type =? "rotate_z" then call_star1 "rotate_z" (rotate_z vertices) t_params
  else if t_type =? "scale" then call_star3 "scale" (scale vertices) t_params
  else print ("Warning: Unknown transformation type: " ++ t_type) ;; ret vertices.

(** The loop over ["transformations"], in list order. *)
Fixpoint apply_transformations (infos : list transform_info) (vertices : list vec3)
  : io (list vec3) :=
  match infos with
  | [] => ret vertices
  | info :: rest =>
      vertices' <- apply_transform vertices info ;;
      apply_transformations rest vertices'
  end.

(** The generator call of a primitive node; every generator is called
    with its default [center] and default segment counts. *)
Definition initial_mesh (shape : string) (node : scene_graph_node)
  : io (list vec3 * list face) :=
  if shape =? "cube" then
    size <- getitem "initial_size" (initial_size node) ;;
    ret (create_cube_mesh (0, 0, 0) size)
  else if shape =? "cylinder" then
    radius <- getitem "initial_radius" (initial_radius node) ;;
    height <- getitem "initial_height" (initial_height node) ;;
    lift (create_cylinder_mesh (0, 0, 0) radius height 20)
  else if shape =? "cone" then
    radius <- getitem "initial_radius" (initial_radius node) ;;
    height <- getitem "initial_height" (initial_height node) ;;
    lift (create_cone_mesh (0, 0, 0) radius height 20)
  else if shape =? "sphere" then
    radius <- getitem "initial_radius" (initial_radius node) ;;
    lift (create_sphere_mesh (0, 0, 0) radius 20)
  else if shape =? "torus" then
    major_radius <- getitem "initial_major_radius" (initial_major_radius node) ;;
    minor_radius <- getitem "initial_minor_radius" (initial_minor_radius node) ;;
    ret (create_torus_mesh (0, 0, 0) major_radius minor_radius 30 15)
  else raise (ValueError ("Unknown primitive shape: " ++ shape)).

Definition column0 (vertices : list vec3) : list R := map (fun v => fst (fst v)) vertices.
Definition column1 (vertices : list vec3) : list R := map (fun v => snd (fst v)) vertices.
Definition column2 (vertices : list vec3) : list R := map (fun v => snd v) vertices.

Definition mesh3d (vertices : list vec3) (faces : list face) (color : string) : Mesh3d :=
  {| m_x := column0 vertices; m_y := column1 vertices; m_z := column2 vertices;
     m_i := map (fun f => fst (fst f)) faces;
     m_j := map (fun f => snd (fst f)) faces;
     m_k := map (fun f => snd f) faces;
     m_color := color;
     m_opacity := 1.0;
     m_flatshading := true |}.

(** The branch of [build_scene] for ["type"] equal to ["primitive"]. *)
Definition build_primitive (node : scene_graph_node) : io (list Mesh3d) :=
  shape <- getitem "shape" (shape node) ;;
  color <- getitem "color" (color node) ;;
  mesh <- initial_mesh shape node ;;
  let '(vertices, faces) := mesh in
  infos <- getitem "transformations" (transformations node) ;;
  vertices <- apply_transformations infos vertices ;;
  ret ([] ++ [mesh3d vertices faces color]).

(** The loop of the ["group"] branch: [traces.extend(build(child_node))]
    for each child in list order. *)
Section Extend.
Variable build : scene_graph_node -> io (list Mesh3d).

Fixpoint extend_traces (children : list scene_graph_node) (traces : list Mesh3d)
  : io (list Mesh3d) :=
  match children with
  | [] => ret traces
  | child_node :: rest =>
      child_traces <- build child_node ;;
      extend_traces rest (traces ++ child_traces)
  end.
End Extend.

Fixpoint build_scene (node : scene_graph_node) : io (list Mesh3d) :=
  match node with
  | Node node_type _ _ _ _ _ _ _ _ children =>
      type <- getitem "type" node_type ;;
      if type =? "primitive" then build_primitive node
      else if type =? "group" then
        match children with
        | None => raise (KeyError "children")
        | Some children => extend_traces build_scene children []
        end
      else ret []
  end.

End SceneTraversal.

(** ** 3b. The scene graph of the rocket *)

(** The dict literals of [scene_graph]: a primitive carries the keys of
    its shape; the ["name"] key, which nothing reads, is left out. *)
Section SceneGraph.
Local Open Scope R_scope.
Local Open Scope string_scope.
Local Open Scope list_scope.

Definition cube_node (color : string) (initial_size : vec3)
           (transformations : list transform_info) : scene_graph_node :=
  Node (Some "primitive") (Some "cube") (Some color) (Some initial_size)
       None None None None (Some transformations) None.

Definition cylinder_node (color : string) (initial_radius initial_height : R)
           (transformations : list transform_info) : scene_graph_node :=
  Node (Some "primitive") (Some "cylinder") (Some color) None
       (Some initial_radius) (Some initial_height) None None (Some transformations) None.

Definition cone_node (color : string) (initial_radius initial_height : R)
           (transformations : list transform_info) : scene_graph_node :=
  Node (Some "primitive") (Some "cone") (Some color) None
       (Some initial_radius) (Some initial_height) None None (Some transformations) None.

Definition sphere_node (color : string) (initial_radius : R)
           (transformations : list transform_info) : scene_graph_node :=
  Node (Some "primitive") (Some "sphere") (Some color) None
       (Some initial_radius) None None None (Some transformations) None.

Definition torus_node (color : string) (initial_major_radius initial_minor_radius : R)
           (transformations : list transform_info) : scene_graph_node :=
  Node (Some "primitive") (Some "torus") (Some color) None None None
       (Some initial_major_radius) (Some initial_minor_radius) (Some transformations) None.

Definition group_node (children : list scene_graph_node) : scene_graph_node :=
  Node (Some "group") None None None None None None None None (Some children).

(** [scene_graph["rocket"]]. *)
Definition rocket : scene_graph_node :=
  group_node
    [ (* body *)
      cylinder_node "silver" 1.0 6.0 [Transform "translate" [0; 0; 3.0]];
      (* nose_cone *)
      cone_node "red" 1.0 3.0 [Transform "translate" [0; 0; 6.0]];
      (* fin_1 *)
      cube_node "blue" (0.2, 2.5, 2.0)
        [Transform "translate" [0; -1.0; 1.0];
         Transform "rotate_z" [0];
         Transform "rotate_x" [10]];
      (* fin_2 *)
      cube_node "blue" (0.2, 2.5, 2.0)
        [Transform "translate" [0; -1.0; 1.0];
         Transform "rotate_z" [120];
         Transform "rotate_x" [10]];
      (* fin_3 *)
      cube_node "blue" (0.2, 2.5, 2.0)
        [Transform "translate" [0; -1.0; 1.0];
         Transform "rotate_z" [240];
         Transform "rotate_x" [10]];
      (* window_1 *)
      sphere_node "lightblue" 0.3 [Transform "translate" [0.8; 0; 5.0]];
      (* window_2 *)
      sphere_node "lightblue" 0.3
        [Transform "translate"
           [0.8 * cos (Np.deg2rad 90); 0.8 * sin (Np.deg2rad 90); 4.0];
         Transform "rotate_z" [90]];
      (* window_3 *)
      sphere_node "lightblue" 0.3
        [Transform "translate"
           [0.8 * cos (Np.deg2rad 180); 0.8 * sin (Np.deg2rad 180); 5.0];
         Transform "rotate_z" [180]];
      (* exhaust *)
      cylinder_node "darkgrey" 0.7 1.0 [Transform "translate" [0; 0; -0.5]];
      (* nozzle_1 *)
      cone_node "orange" 0.3 0.8
        [Transform "translate" [0.3; 0.3; -0.9];
         Transform "rotate_x" [180]];
      (* nozzle_2 *)
      cone_node "orange" 0.3 0.8
        [Transform "translate" [-0.3; -0.3; -0.9];
         Transform "rotate_x" [180]];
      (* ring_top *)
      torus_node "gold" 1.1 0.05 [Transform "translate" [0; 0; 5.5]];
      (* ring_bottom *)
      torus_node "gold" 1.1 0.05 [Transform "translate" [0; 0; 1.5]] ].

End SceneGraph.

(** ** 4b. The figure *)

(** [go.Figure] and the layout that [update_layout] sets, as records of
    the keyword arguments passed. *)
Module Go.

Record axis : Type := {
  showbackground : bool; showticklabels : bool; zeroline : bool; visible : bool
}.

Record camera : Type := { eye : vec3; center : vec3; up : vec3 }.

Record scene : Type := {
  xaxis : axis; yaxis : axis; zaxis : axis;
  aspectmode : string;
  scene_camera : camera
}.

Record margin : Type := { l : Z; r : Z; b : Z; t : Z }.

Record layout : Type := {
  title : string;
  layout_scene : scene;
  layout_margin : margin;
  paper_bgcolor : string;
  plot_bgcolor : string
}.

Record Figure : Type := { data : list Mesh3d; figure_layout : layout }.

End Go.

Section RocketFigure.
Local Open Scope R_scope.
Local Open Scope string_scope.
Local Open Scope io_scope.

Definition hidden_axis : Go.axis :=
  {| Go.showbackground := false; Go.showticklabels := false;
     Go.zeroline := false; Go.visible := false |}.

Definition rocket_layout : Go.layout :=
  {| Go.title := "3D Rocket Model";
     Go.layout_scene :=
       {| Go.xaxis := hidden_axis; Go.yaxis := hidden_axis; Go.zaxis := hidden_axis;
          Go.aspectmode := "data";
          Go.scene_camera :=
            {| Go.eye := (1.8, 1.8, 1.0); Go.center := (0, 0, 3.0); Go.up := (0, 0, 1) |} |};
     Go.layout_margin := {| Go.l := 0; Go.r := 0; Go.b := 0; Go.t := 30 |};
     Go.paper_bgcolor := "rgba(0,0,0,0)";
     Go.plot_bgcolor := "rgba(0,0,0,0)" |}.

Definition create_rocket_figure : io Go.Figure :=
  traces <- build_scene rocket ;;
  ret {| Go.data := traces; Go.figure_layout := rocket_layout |}.

End RocketFigure.

(** * Properties *)

(** ** Vocabulary of the statements *)

Definition mesh : Type := (list vec3 * list face)%type.

Definition vertex_count (m : mesh) : Z := Z.of_nat (length (fst m)).

Definition face_count (m : mesh) : Z := Z.of_nat (length (snd m)).

(** Every index of every face addresses a vertex of the mesh. *)
Definition faces_in_range (m : mesh) : Prop :=
  Forall (fun f => Forall (fun idx => (0 <= idx < vertex_count m)%Z) (face_indices f))
         (snd m).

Definition vadd (c v : vec3) : vec3 :=
  let '(c0, c1, c2) := c in
  let '(v0, v1, v2) := v in
  (c0 + v0, c1 + v1, c2 + v2)%R.

(** A mesh with its vertices moved by [v] and its faces kept. *)
Definition translate_mesh (v : vec3) (m : mesh) : mesh :=
  let '(v0, v1, v2) := v in (translate (fst m) v0 v1 v2, snd m).

Definition known_shapes : list string :=
  ["cube"; "cylinder"; "cone"; "sphere"; "torus"]%string.

Definition known_transformations : list string :=
  ["translate"; "rotate_x"; "rotate_y"; "rotate_z"; "scale"]%string.

(** The node [node] with another ["transformations"] list. *)
Definition with_transformations (node : scene_graph_node) (infos : list transform_info)
  : scene_graph_node :=
  match node with
  | Node ty sh co sz ra he ma mi _ ch => Node ty sh co sz ra he ma mi (Some infos) ch
  end.

(** Run the computations in list order and collect their values. *)
Fixpoint sequence {A} (ms : list (io A)) : io (list A) :=
  match ms with
  | [] => IO.ret []
  | m :: rest =>
      IO.bind m (fun a => IO.bind (sequence rest) (fun l => IO.ret (a :: l)))
  end.

(** ** Pieces of the primitive branch and sample inputs *)

Section Samples.
Local Open Scope R_scope.
Local Open Scope string_scope.
Local Open Scope list_scope.

(** The line printed for an entry of unknown type. *)
Definition warning (t_type : string) : string :=
  "Warning: Unknown transformation type: " ++ t_type.

(** What a primitive node computes before its transformations run. *)
Definition primitive_head (node : scene_graph_node) : io (mesh * string) :=
  IO.bind (getitem "shape" (shape node)) (fun shape =>
  IO.bind (getitem "color" (color node)) (fun color =>
  IO.bind (initial_mesh shape node) (fun mesh => IO.ret (mesh, color)))).

(** What it computes from there, given the transformations. *)
Definition primitive_tail (infos : list transform_info) (head : mesh * string)
  : io (list Mesh3d) :=
  let '((vertices, faces), color) := head in
  IO.bind (apply_transformations infos vertices) (fun vertices =>
  IO.ret ([] ++ [mesh3d vertices faces color])).

(** The two entries of the order scenario. *)
Definition translate_1_0_0 : transform_info := Transform "translate" [1; 0; 0].

Definition rotate_z_90 : transform_info := Transform "rotate_z" [90].

Definition origin : vec3 := (0, 0, 0).

(** The cube of the size-2 scenario. *)
Definition cube_2 : mesh := create_cube_mesh (0, 0, 0) (2, 2, 2).

(** A node that is neither a primitive nor a group. *)
Definition decoration : scene_graph_node :=
  Node (Some "light") None None None None None None None None None.

(** A primitive of a shape the builder does not know. *)
Definition pyramid : scene_graph_node :=
  Node (Some "primitive") (Some "pyramid") (Some "red")
       None None None None None (Some []) None.

(** A cube with an entry of unknown type between two known ones. *)
Definition spun_cube : scene_graph_node :=
  Node (Some "primitive") (Some "cube") (Some "blue")
       (Some (2, 2, 2)%R) None None None None
       (Some ([Transform "translate" [0; 0; 1]%R]
              ++ Transform "shear" [1]%R :: [Transform "rotate_z" [90]%R]))
       None.

(** A cube with one entry of unknown type that has no ["params"] key. *)
Definition paramless_cube : scene_graph_node :=
  Node (Some "primitive") (Some "cube") (Some "blue")
       (Some (2, 2, 2)%R) None None None None
       (Some [Entry (Some "shear") None]) None.

(** A group of two primitives. *)
Definition fin : scene_graph_node :=
  Node (Some "primitive") (Some "cube") (Some "blue")
       (Some (1 / 5, 5 / 2, 2)%R) None None None None
       (Some [Transform "translate" [0; -1; 1]%R]) None.

Definition ring : scene_graph_node :=
  Node (Some "primitive") (Some "torus") (Some "gold")
       None None None (Some (11 / 10)%R) (Some (1 / 20)%R)
       (Some [Transform "translate" [0; 0; 3 / 2]%R]) None.

Definition fin_and_ring : scene_graph_node :=
  Node (Some "group") None None None None None None None None (Some [fin; ring]).

End Samples.

(** ** Further vocabulary *)

Section MoreVocabulary.
Local Open Scope string_scope.
Local Open Scope list_scope.

(** Squared distance of a vertex from the origin. *)
Definition norm2 (v : vec3) : R :=
  let '(x, y, z) := v in (x * x + y * y + z * z)%R.

(** Squared distance between two vertices. *)
Definition dist2 (p q : vec3) : R :=
  let '(x, y, z) := p in
  let '(x', y', z') := q in
  ((x - x') * (x - x') + (y - y') * (y - y') + (z - z') * (z - z'))%R.

(** Number of parameters the function behind a transformation type
    takes after [vertices]. *)
Definition arity (t_type : string) : option nat :=
  if t_type =? "translate" then Some 3%nat
  else if t_type =? "rotate_x" then Some 1%nat
  else if t_type =? "rotate_y" then Some 1%nat
  else if t_type =? "rotate_z" then Some 1%nat
  else if t_type =? "scale" then Some 3%nat
  else None.

(** The colors of the primitive nodes of a tree, depth first, children
    in list order. *)
Fixpoint primitive_colors (node : scene_graph_node) : list string :=
  match node with
  | Node node_type _ color _ _ _ _ _ _ children =>
      match node_type with
      | Some type =>
          if type =? "primitive" then
            match color with Some c => [c] | None => [] end
          else if type =? "group" then
            match children with
            | Some children => flat_map primitive_colors children
            | None => []
            end
          else []
      | None => []
      end
  end.

(** A trace a renderer can draw: three coordinate columns of one
    length, three index columns of one length, every index addressing
    a vertex. *)
Definition well_formed (m : Mesh3d) : Prop :=
  length (m_y m) = length (m_x m) /\ length (m_z m) = length (m_x m)
  /\ length (m_j m) = length (m_i m) /\ length (m_k m) = length (m_i m)
  /\ Forall (fun idx => (0 <= idx < Z.of_nat (length (m_x m)))%Z)
            (m_i m ++ m_j m ++ m_k m).

(** Squared distance between the two vertices of a pair. *)
Definition pair_dist2 (pq : vec3 * vec3) : R := dist2 (fst pq) (snd pq).

(** The vertex array and the face array a trace was made from. *)
Definition mesh_vertices (m : Mesh3d) : list vec3 :=
  Np.column_stack (m_x m) (m_y m) (m_z m).

Definition mesh_faces (m : Mesh3d) : list face :=
  map (fun p => let '(a, (b, c)) := p in (a, b, c))
      (combine (m_i m) (combine (m_j m) (m_k m))).

(** The three indices of a face are pairwise different. *)
Definition distinct_indices (f : face) : Prop :=
  let '(a, b, c) := f in a <> b /\ b <> c /\ a <> c.

(** The implicit equation of the torus of center [c], in the plane
    z = c2, with major radius [major_radius] and minor radius
    [minor_radius]. *)
Definition on_torus (c : vec3) (major_radius minor_radius : R) (v : vec3) : Prop :=
  let '(c0, c1, c2) := c in
  let '(x, y, z) := v in
  let d2 := ((x - c0) * (x - c0) + (y - c1) * (y - c1))%R in
  let w := (d2 + (z - c2) * (z - c2) + major_radius * major_radius
            - minor_radius * minor_radius)%R in
  (w * w = 4 * (major_radius * major_radius) * d2)%R.

(** On the circle of radius [radius] around the vertical axis through
    [c], or on that axis. *)
Definition on_ring_or_axis (c : vec3) (radius : R) (v : vec3) : Prop :=
  let '(c0, c1, c2) := c in
  let '(x, y, z) := v in
  ((x - c0) * (x - c0) + (y - c1) * (y - c1) = radius * radius)%R
  \/ (x = c0 /\ y = c1).

(** The height of a vertex. *)
Definition height_of (v : vec3) : R := snd v.

(** The vertex the sphere generator computes at ring [i], column [j]. *)
Definition sphere_vertex (center : vec3) (radius : R) (segments i j : Z) : vec3 :=
  let '(c0, c1, c2) := center in
  let lat := (Np.pi * (-0.5 + IZR i / IZR segments))%R in
  let lon := (2 * Np.pi * IZR j / IZR segments)%R in
  (radius * cos lat * cos lon + c0,
   radius * cos lat * sin lon + c1,
   radius * sin lat + c2)%R.

(** The vertex the torus generator computes at step [i] around the main
    ring and step [j] around the tube. *)
Definition torus_vertex (center : vec3) (major_radius minor_radius : R)
           (major_segments minor_segments i j : Z) : vec3 :=
  let '(c0, c1, c2) := center in
  let phi := (2 * Np.pi * IZR i / IZR major_segments)%R in
  let theta := (2 * Np.pi * IZR j / IZR minor_segments)%R in
  ((major_radius + minor_radius * cos theta) * cos phi + c0,
   (major_radius + minor_radius * cos theta) * sin phi + c1,
   minor_radius * sin theta + c2)%R.

(** An entry the loop can run: it has both keys and, when its type
    names one of the five functions, as many parameters as the function
    takes. *)
Definition right_arity (info : transform_info) : Prop :=
  match t_type info, t_params info with
  | Some type, Some params =>
      match arity type with
      | Some k => length params = k
      | None => True
      end
  | _, _ => False
  end.

(** The warning an entry prints: one when its type names none of the
    five functions. *)
Definition entry_warnings (info : transform_info) : list string :=
  match t_type info with
  | Some type =>
      match arity type with
      | Some _ => []
      | None => [warning type]
      end
  | None => []
  end.

(** The warnings a list of entries prints, in order. *)
Definition warnings (infos : list transform_info) : list string :=
  flat_map entry_warnings infos.

(** The traces a build returned, none if it raised. *)
Definition traces_of (m : io (list Mesh3d)) : list Mesh3d :=
  match outcome m with Ok traces => traces | Raise _ => [] end.

(** The six sides of the cube, named as the comments of the face
    table name them. *)
Inductive side : Type := Bottom | Top | Front | Back | Left | Right.

(** The plane of a side of the box of the given center and size. *)
Definition on_side (center size : vec3) (sd : side) (v : vec3) : Prop :=
  let '(c0, c1, c2) := center in
  let '(s0, s1, s2) := size in
  let '(x, y, z) := v in
  match sd with
  | Bottom => z = (c2 - s2 / 2)%R
  | Top => z = (c2 + s2 / 2)%R
  | Front => y = (c1 - s1 / 2)%R
  | Back => y = (c1 + s1 / 2)%R
  | Left => x = (c0 - s0 / 2)%R
  | Right => x = (c0 + s0 / 2)%R
  end.

(** The vertex a face index addresses. *)
Definition vertex_at (vertices : list vec3) (idx : Z) : option vec3 :=
  nth_error vertices (Z.to_nat idx).

(** All three corners of a face lie on a side. *)
Definition face_on_side (center size : vec3) (vertices : list vec3)
           (f : face) (sd : side) : Prop :=
  Forall (fun idx => exists v, vertex_at vertices idx = Some v
                               /\ on_side center size sd v)
         (face_indices f).

(** The [i]-th angle of [np.linspace(0, 2*np.pi, segments, endpoint=False)]. *)
Definition angle (segments i : Z) : R :=
  (IZR i * ((2 * Np.pi - 0) / IZR segments) + 0)%R.

End MoreVocabulary.

(** ** Lists and ranges *)

Section ListFacts.

Lemma range_length (n : Z) : length (range n) = Z.to_nat n.
Proof. unfold range. now rewrite length_map, length_seq. Qed.

Lemma in_range (n i : Z) : In i (range n) <-> (0 <= i < n)%Z.
Proof.
  unfold range. rewrite in_map_iff. split.
  - intros [k [<- Hk]]. apply in_seq in Hk. lia.
  - intros Hi. exists (Z.to_nat i). split; [lia|]. apply in_seq. lia.
Qed.

Lemma flat_map_length_const {A B} (f : A -> list B) (k : nat) (l : list A) :
  (forall a, In a l -> length (f a) = k) -> length (flat_map f l) = (length l * k)%nat.
Proof.
  induction l as [|a l IH]; intros H; simpl; [reflexivity|].
  rewrite length_app, (H a (or_introl eq_refl)), IH; [reflexivity|].
  intros b Hb. apply H. now right.
Qed.

Lemma Forall_flat_map_intro {A B} (P : B -> Prop) (f : A -> list B) (l : list A) :
  (forall a, In a l -> Forall P (f a)) -> Forall P (flat_map f l).
Proof.
  intros H. apply Forall_forall. intros b Hb.
  apply in_flat_map in Hb as [a [Ha Hb]].
  specialize (H a Ha). rewrite Forall_forall in H. auto.
Qed.

Lemma Forall_map_intro {A B} (P : B -> Prop) (f : A -> B) (l : list A) :
  (forall a, In a l -> P (f a)) -> Forall P (map f l).
Proof.
  intros H. apply Forall_forall. intros b Hb.
  apply in_map_iff in Hb as [a [<- Ha]]. auto.
Qed.

Lemma column_stack_length (a b c : list R) :
  length (Np.column_stack a b c) = Nat.min (length a) (Nat.min (length b) (length c)).
Proof. unfold Np.column_stack. now rewrite length_map, !length_combine. Qed.

Lemma linspace_ok (start stop : R) (num : Z) :
  (0 <= num)%Z ->
  exists theta, Np.linspace start stop num = Ok theta /\ length theta = Z.to_nat num.
Proof.
  intros H. unfold Np.linspace.
  destruct (Z.ltb_spec num 0); [lia|].
  eexists; split; [reflexivity|]. now rewrite length_map, range_length.
Qed.

End ListFacts.

(** ** Vertex counts *)

Section VertexCounts.

Lemma cylinder_vertex_count center radius height segments :
  (0 <= segments)%Z ->
  fmap vertex_count (create_cylinder_mesh center radius height segments)
  = Ok (2 * segments + 2)%Z.
Proof.
  intros H. destruct center as [[c0 c1] c2]. unfold create_cylinder_mesh.
  destruct (linspace_ok 0 (2 * Np.pi) segments H) as [theta [-> Hlen]].
  cbn [Py.bind fmap]. f_equal. unfold vertex_count, Np.vstack, Np.full. cbn [fst concat].
  rewrite !length_app, !column_stack_length, !length_map, !repeat_length, Hlen.
  simpl length. lia.
Qed.

Lemma cone_vertex_count center radius height segments :
  (0 <= segments)%Z ->
  fmap vertex_count (create_cone_mesh center radius height segments)
  = Ok (segments + 2)%Z.
Proof.
  intros H. destruct center as [[c0 c1] c2]. unfold create_cone_mesh.
  destruct (linspace_ok 0 (2 * Np.pi) segments H) as [theta [-> Hlen]].
  cbn [Py.bind fmap]. f_equal. unfold vertex_count, Np.vstack, Np.full. cbn [fst concat].
  rewrite !length_app, !column_stack_length, !length_map, !repeat_length, Hlen.
  simpl length. lia.
Qed.

Lemma sphere_vertex_count center radius segments :
  (0 < segments)%Z ->
  fmap vertex_count (create_sphere_mesh center radius segments)
  = Ok ((segments + 1) * (segments + 1))%Z.
Proof.
  intros H. destruct center as [[c0 c1] c2]. unfold create_sphere_mesh.
  destruct (Z.eqb_spec segments 0); [lia|].
  cbn [Py.bind fmap]. f_equal. unfold vertex_count. cbn [fst].
  rewrite flat_map_length_const with (k := Z.to_nat (segments + 1)).
  - rewrite range_length. lia.
  - intros a _. now rewrite length_map, range_length.
Qed.

Lemma torus_vertex_count center major_radius minor_radius major_segments minor_segments :
  (0 <= major_segments)%Z -> (0 <= minor_segments)%Z ->
  vertex_count (create_torus_mesh center major_radius minor_radius
                                  major_segments minor_segments)
  = (major_segments * minor_segments)%Z.
Proof.
  intros HM Hm. destruct center as [[c0 c1] c2]. unfold create_torus_mesh, vertex_count.
  cbn [fst].
  rewrite flat_map_length_const with (k := Z.to_nat minor_segments).
  - rewrite range_length. lia.
  - intros a _. now rewrite length_map, range_length.
Qed.

Lemma cube_vertex_count center size : vertex_count (create_cube_mesh center size) = 8%Z.
Proof. destruct center as [[x y] z], size as [[s0 s1] s2]. reflexivity. Qed.

(** C1. With positive segment counts and any center, radius and height,
    the cylinder has 2*segments + 2 vertices, the sphere (segments+1)^2
    and the torus major_segments*minor_segments; the cylinder and the
    sphere return (they do not raise). *)
Theorem generators_vertex_count :
  forall (center : vec3) (radius height major_radius minor_radius : R)
         (segments major_segments minor_segments : Z),
    (0 < segments)%Z -> (0 < major_segments)%Z -> (0 < minor_segments)%Z ->
    fmap vertex_count (create_cylinder_mesh center radius height segments)
    = Ok (2 * segments + 2)%Z
    /\ fmap vertex_count (create_sphere_mesh center radius segments)
       = Ok ((segments + 1) ^ 2)%Z
    /\ vertex_count (create_torus_mesh center major_radius minor_radius
                                       major_segments minor_segments)
       = (major_segments * minor_segments)%Z.
Proof.
  intros. repeat split.
  - apply cylinder_vertex_count. lia.
  - rewrite sphere_vertex_count by assumption. f_equal. lia.
  - apply torus_vertex_count; lia.
Qed.

Lemma generators_vertex_count_witness :
  fmap vertex_count (create_cylinder_mesh (0, 0, 0)%R 1%R 6%R 4) = Ok 10%Z
  /\ fmap vertex_count (create_sphere_mesh (0, 0, 0)%R 1%R 4) = Ok 25%Z
  /\ vertex_count (create_torus_mesh (0, 0, 0)%R 1%R (1 / 5)%R 3 5) = 15%Z.
Proof.
  apply (generators_vertex_count (0, 0, 0)%R 1%R 6%R 1%R (1 / 5)%R 4 3 5); lia.
Defined.

(** The cone of 4 segments: 4 base vertices, apex and base center; 4
    side faces and 4 cap faces. *)
Example cone_4_counts :
  fmap (fun m => (vertex_count m, face_count m))
       (create_cone_mesh (0, 0, 0)%R 1%R 1%R 4)
  = Ok (6, 8)%Z.
Proof. reflexivity. Qed.

End VertexCounts.

(** ** Face indices *)

Section FaceIndices.

(** Records the range of every [_ mod n] of the goal, for a positive [n]. *)
Ltac mod_bounds :=
  repeat match goal with
         | |- context [(?a mod ?b)%Z] =>
             lazymatch goal with
             | _ : (0 <= a mod b < b)%Z |- _ => fail
             | _ => pose proof (Z.mod_pos_bound a b ltac:(lia))
             end
         end.

Lemma triangle_in_range (n a b c : Z) :
  (0 <= a < n)%Z -> (0 <= b < n)%Z -> (0 <= c < n)%Z ->
  Forall (fun idx => (0 <= idx < n)%Z) (face_indices (a, b, c)).
Proof. intros. unfold face_indices. repeat constructor; lia. Qed.

Lemma triangle_pair_in_range (n : Z) (f g : face) :
  Forall (fun idx => (0 <= idx < n)%Z) (face_indices f) ->
  Forall (fun idx => (0 <= idx < n)%Z) (face_indices g) ->
  Forall (fun t => Forall (fun idx => (0 <= idx < n)%Z) (face_indices t)) [f; g].
Proof. intros. repeat constructor; assumption. Qed.

Ltac triangle_bounds := cbv beta; apply triangle_in_range; mod_bounds.
Ltac quad_bounds := cbv beta; apply triangle_pair_in_range; triangle_bounds.

Lemma Ok_inj {A} (a b : A) : Ok a = Ok b -> a = b.
Proof. congruence. Qed.

Lemma vertex_count_of (r : result mesh) (n : Z) (m : mesh) :
  fmap vertex_count r = Ok n -> r = Ok m -> vertex_count m = n.
Proof. intros H ->. now apply Ok_inj in H. Qed.

Lemma cube_faces_in_range center size : faces_in_range (create_cube_mesh center size).
Proof.
  destruct center as [[x y] z], size as [[s0 s1] s2].
  unfold faces_in_range. rewrite cube_vertex_count.
  cbn [create_cube_mesh snd].
  repeat (apply Forall_cons; [apply triangle_in_range; lia|]). apply Forall_nil.
Qed.

Lemma cylinder_faces_in_range center radius height segments :
  (0 < segments)%Z ->
  exists m, create_cylinder_mesh center radius height segments = Ok m
            /\ faces_in_range m.
Proof.
  intros H.
  pose proof (cylinder_vertex_count center radius height segments ltac:(lia)) as Hn.
  destruct (create_cylinder_mesh center radius height segments) as [m|e] eqn:E;
    [|discriminate].
  apply vertex_count_of with (m := m) in Hn; [|reflexivity].
  exists m. split; [reflexivity|]. unfold faces_in_range. rewrite Hn.
  destruct center as [[c0 c1] c2]. unfold create_cylinder_mesh in E.
  destruct (Np.linspace 0 (2 * Np.pi) segments) as [theta|]; [|discriminate].
  cbn [Py.bind] in E. apply Ok_inj in E. subst m. unfold snd.
  repeat rewrite Forall_app. repeat split.
  - apply Forall_map_intro. intros i Hi%in_range. triangle_bounds; lia.
  - apply Forall_map_intro. intros i Hi%in_range. triangle_bounds; lia.
  - apply Forall_flat_map_intro. intros i Hi%in_range.
    quad_bounds; lia.
Qed.

Lemma cone_faces_in_range center radius height segments :
  (0 < segments)%Z ->
  exists m, create_cone_mesh center radius height segments = Ok m
            /\ faces_in_range m.
Proof.
  intros H.
  pose proof (cone_vertex_count center radius height segments ltac:(lia)) as Hn.
  destruct (create_cone_mesh center radius height segments) as [m|e] eqn:E;
    [|discriminate].
  apply vertex_count_of with (m := m) in Hn; [|reflexivity].
  exists m. split; [reflexivity|]. unfold faces_in_range. rewrite Hn.
  destruct center as [[c0 c1] c2]. unfold create_cone_mesh in E.
  destruct (Np.linspace 0 (2 * Np.pi) segments) as [theta|]; [|discriminate].
  cbn [Py.bind] in E. apply Ok_inj in E. subst m. unfold snd.
  repeat rewrite Forall_app. repeat split.
  - apply Forall_map_intro. intros i Hi%in_range. triangle_bounds; lia.
  - apply Forall_map_intro. intros i Hi%in_range. triangle_bounds; lia.
Qed.

Lemma sphere_faces_in_range center radius segments :
  (0 < segments)%Z ->
  exists m, create_sphere_mesh center radius segments = Ok m /\ faces_in_range m.
Proof.
  intros H.
  pose proof (sphere_vertex_count center radius segments H) as Hn.
  destruct (create_sphere_mesh center radius segments) as [m|e] eqn:E; [|discriminate].
  apply vertex_count_of with (m := m) in Hn; [|reflexivity].
  exists m. split; [reflexivity|]. unfold faces_in_range. rewrite Hn.
  destruct center as [[c0 c1] c2]. unfold create_sphere_mesh in E.
  destruct (Z.eqb_spec segments 0); [lia|]. apply Ok_inj in E. subst m. unfold snd.
  apply Forall_flat_map_intro. intros i Hi%in_range.
  apply Forall_flat_map_intro. intros j Hj%in_range.
  quad_bounds; nia.
Qed.

Lemma torus_faces_in_range center major_radius minor_radius major_segments minor_segments :
  (0 < major_segments)%Z -> (0 < minor_segments)%Z ->
  faces_in_range (create_torus_mesh center major_radius minor_radius
                                    major_segments minor_segments).
Proof.
  intros HM Hm. unfold faces_in_range.
  rewrite torus_vertex_count by lia.
  destruct center as [[c0 c1] c2]. cbn [create_torus_mesh snd].
  apply Forall_flat_map_intro. intros i Hi%in_range.
  apply Forall_flat_map_intro. intros j Hj%in_range.
  quad_bounds; nia.
Qed.

(** C2. For each of the five generators and positive segment counts,
    the generator returns a mesh, and every index of its face array is
    at least 0 and below the number of its vertices. *)
Theorem generators_faces_in_range :
  forall (center size : vec3) (radius height major_radius minor_radius : R)
         (segments major_segments minor_segments : Z),
    (0 < segments)%Z -> (0 < major_segments)%Z -> (0 < minor_segments)%Z ->
    faces_in_range (create_cube_mesh center size)
    /\ (exists m, create_cylinder_mesh center radius height segments = Ok m
                  /\ faces_in_range m)
    /\ (exists m, create_cone_mesh center radius height segments = Ok m
                  /\ faces_in_range m)
    /\ (exists m, create_sphere_mesh center radius segments = Ok m
                  /\ faces_in_range m)
    /\ faces_in_range (create_torus_mesh center major_radius minor_radius
                                         major_segments minor_segments).
Proof.
  intros. split; [apply cube_faces_in_range|].
  split; [now apply cylinder_faces_in_range|].
  split; [now apply cone_faces_in_range|].
  split; [now apply sphere_faces_in_range|].
  now apply torus_faces_in_range.
Qed.

Lemma generators_faces_in_range_witness :
  faces_in_range (create_cube_mesh (0, 0, 0)%R (2, 2, 2)%R)
  /\ (exists m, create_cylinder_mesh (0, 0, 0)%R 1%R 6%R 20 = Ok m /\ faces_in_range m)
  /\ (exists m, create_cone_mesh (0, 0, 0)%R 1%R 6%R 20 = Ok m /\ faces_in_range m)
  /\ (exists m, create_sphere_mesh (0, 0, 0)%R 1%R 20 = Ok m /\ faces_in_range m)
  /\ faces_in_range (create_torus_mesh (0, 0, 0)%R 1%R (1 / 5)%R 30 15).
Proof.
  apply (generators_faces_in_range (0, 0, 0)%R (2, 2, 2)%R 1%R 6%R 1%R (1 / 5)%R 20 30 15);
    lia.
Defined.

End FaceIndices.

(** ** Moving the center *)

Section CenterTranslation.
Local Open Scope R_scope.

Lemma vec3_ext (a b c a' b' c' : R) :
  a = a' -> b = b' -> c = c' -> (a, b, c) = (a', b', c').
Proof. congruence. Qed.

Lemma translate_map vertices tx ty tz :
  translate vertices tx ty tz
  = map (fun v : vec3 => let '(x, y, z) := v in (x + tx, y + ty, z + tz)) vertices.
Proof. reflexivity. Qed.

Lemma translate_app l1 l2 tx ty tz :
  translate (l1 ++ l2) tx ty tz = translate l1 tx ty tz ++ translate l2 tx ty tz.
Proof. rewrite !translate_map. apply map_app. Qed.

Lemma translate_flat_map {A} (f : A -> list vec3) (l : list A) tx ty tz :
  translate (flat_map f l) tx ty tz = flat_map (fun a => translate (f a) tx ty tz) l.
Proof.
  induction l as [|a l IH]; [reflexivity|].
  cbn [flat_map]. now rewrite translate_app, IH.
Qed.

Lemma translate_column_stack a b c tx ty tz :
  translate (Np.column_stack a b c) tx ty tz
  = Np.column_stack (map (fun x => x + tx) a) (map (fun y => y + ty) b)
                    (map (fun z => z + tz) c).
Proof.
  rewrite translate_map. unfold Np.column_stack.
  revert b c. induction a as [|x a IH]; intros [|y b] [|z c]; try reflexivity.
  cbn [map combine]. f_equal. apply IH.
Qed.

Lemma shift_shift (l : list R) (c v : R) :
  map (fun a => a + (c + v)) l = map (fun a => a + v) (map (fun a => a + c) l).
Proof. rewrite map_map. apply map_ext. intros a. ring. Qed.

Lemma full_shift (n : Z) (z v : R) :
  map (fun a => a + v) (Np.full n z) = Np.full n (z + v).
Proof. unfold Np.full. now rewrite map_repeat. Qed.

Lemma cube_center_shift c v size :
  create_cube_mesh (vadd c v) size = translate_mesh v (create_cube_mesh c size).
Proof.
  destruct c as [[c0 c1] c2], v as [[v0 v1] v2], size as [[s0 s1] s2].
  unfold translate_mesh, create_cube_mesh, vadd. cbn [fst snd].
  rewrite translate_map. cbn [map]. apply (f_equal2 pair); [|reflexivity].
  repeat (apply (f_equal2 cons); [apply vec3_ext; ring|]). reflexivity.
Qed.

Lemma cylinder_center_shift c v radius height segments :
  create_cylinder_mesh (vadd c v) radius height segments
  = fmap (translate_mesh v) (create_cylinder_mesh c radius height segments).
Proof.
  destruct c as [[c0 c1] c2], v as [[v0 v1] v2].
  unfold create_cylinder_mesh, vadd.
  destruct (Np.linspace 0 (2 * Np.pi) segments) as [theta|e]; [|reflexivity].
  cbn [Py.bind fmap]. f_equal. unfold translate_mesh. cbn [fst snd]. f_equal.
  unfold Np.vstack. cbn [concat]. rewrite !translate_app, !translate_column_stack.
  rewrite <- !shift_shift, !full_shift, app_nil_r.
  replace (c2 + v2 - height / 2) with (c2 - height / 2 + v2) by ring.
  replace (c2 + v2 + height / 2) with (c2 + height / 2 + v2) by ring.
  reflexivity.
Qed.

Lemma cone_center_shift c v radius height segments :
  create_cone_mesh (vadd c v) radius height segments
  = fmap (translate_mesh v) (create_cone_mesh c radius height segments).
Proof.
  destruct c as [[c0 c1] c2], v as [[v0 v1] v2].
  unfold create_cone_mesh, vadd.
  destruct (Np.linspace 0 (2 * Np.pi) segments) as [theta|e]; [|reflexivity].
  cbn [Py.bind fmap]. f_equal. unfold translate_mesh. cbn [fst snd]. f_equal.
  unfold Np.vstack. cbn [concat]. rewrite !translate_app, !translate_column_stack.
  rewrite <- !shift_shift, !full_shift, app_nil_r.
  replace (c2 + v2 + height) with (c2 + height + v2) by ring.
  reflexivity.
Qed.

Lemma torus_center_shift c v major_radius minor_radius major_segments minor_segments :
  create_torus_mesh (vadd c v) major_radius minor_radius major_segments minor_segments
  = translate_mesh v (create_torus_mesh c major_radius minor_radius
                                        major_segments minor_segments).
Proof.
  destruct c as [[c0 c1] c2], v as [[v0 v1] v2].
  unfold create_torus_mesh, vadd, translate_mesh. cbn [fst snd].
  apply (f_equal2 pair); [|reflexivity].
  rewrite translate_flat_map. apply flat_map_ext. intros i.
  rewrite translate_map, map_map. apply map_ext. intros j.
  apply vec3_ext; ring.
Qed.

Lemma sphere_center_shift c v radius segments :
  create_sphere_mesh (vadd c v) radius segments
  = fmap (translate_mesh v) (create_sphere_mesh c radius segments).
Proof.
  destruct c as [[c0 c1] c2], v as [[v0 v1] v2].
  unfold create_sphere_mesh, vadd.
  destruct (segments =? 0)%Z; [reflexivity|].
  cbn [Py.bind fmap]. f_equal. unfold translate_mesh. cbn [fst snd].
  apply (f_equal2 pair); [|reflexivity].
  rewrite translate_flat_map. apply flat_map_ext. intros i.
  rewrite translate_map, map_map. apply map_ext. intros j.
  apply vec3_ext; ring.
Qed.

(** C5, amended. Over real arithmetic, for each generator, all
    parameters and every offset [v]: the mesh generated around [c + v]
    is the mesh generated around [c] with every vertex moved by exactly
    [v] and the same face array (and a generator that raises around [c]
    raises the same around [c + v]). *)
Theorem generators_center_shift :
  forall (c v size : vec3) (radius height major_radius minor_radius : R)
         (segments major_segments minor_segments : Z),
    create_cube_mesh (vadd c v) size = translate_mesh v (create_cube_mesh c size)
    /\ create_cylinder_mesh (vadd c v) radius height segments
       = fmap (translate_mesh v) (create_cylinder_mesh c radius height segments)
    /\ create_cone_mesh (vadd c v) radius height segments
       = fmap (translate_mesh v) (create_cone_mesh c radius height segments)
    /\ create_sphere_mesh (vadd c v) radius segments
       = fmap (translate_mesh v) (create_sphere_mesh c radius segments)
    /\ create_torus_mesh (vadd c v) major_radius minor_radius major_segments minor_segments
       = translate_mesh v (create_torus_mesh c major_radius minor_radius
                                             major_segments minor_segments).
Proof.
  intros. split; [apply cube_center_shift|].
  split; [apply cylinder_center_shift|].
  split; [apply cone_center_shift|].
  split; [apply sphere_center_shift|].
  apply torus_center_shift.
Qed.

(** C5 as it was stated fails in binary64: the unit cube generated
    around 0.1 + 0.2 is not the unit cube generated around 0.1 moved by
    0.2.  The faces agree; the first vertex has x = (0.1 + 0.2) - 0.5,
    which rounds to -0.19999999999999996, against (0.1 - 0.5) + 0.2,
    which is -0.2. *)
Lemma cube_center_shift_rounds :
  let c := (F64.tenth, F64.tenth, F64.tenth) in
  let v := (F64.fifth, F64.fifth, F64.fifth) in
  let size := (1, 1, 1)%float in
  F64.create_cube_mesh (F64.vadd c v) size
  <> (F64.translate (fst (F64.create_cube_mesh c size)) F64.fifth F64.fifth F64.fifth,
      snd (F64.create_cube_mesh c size))
  /\ snd (F64.create_cube_mesh (F64.vadd c v) size) = snd (F64.create_cube_mesh c size)
  /\ PrimFloat.eqb (F64.first_x (F64.create_cube_mesh (F64.vadd c v) size))
                    (-0x1.9999999999998p-3) = true
  /\ PrimFloat.eqb
       (F64.first_x
          (F64.translate (fst (F64.create_cube_mesh c size))
                         F64.fifth F64.fifth F64.fifth,
           snd (F64.create_cube_mesh c size)))
       (-0x1.999999999999ap-3) = true.
Proof.
  cbv zeta. split; [|split; [reflexivity | split; vm_compute; reflexivity]].
  intros H.
  apply (f_equal (fun m => PrimFloat.eqb (F64.first_x m) (-0x1.999999999999ap-3))) in H.
  vm_compute in H. discriminate H.
Qed.

End CenterTranslation.

(** ** Rotations and the order of transformations *)

Section Rotations.
Local Open Scope R_scope.

Lemma deg2rad_opp (d : R) : Np.deg2rad (- d) = - Np.deg2rad d.
Proof. unfold Np.deg2rad. ring. Qed.

Lemma deg2rad_90 : Np.deg2rad 90 = PI / 2.
Proof. unfold Np.deg2rad, Np.pi. field. Qed.

Lemma sin2_cos2_prod (a : R) : sin a * sin a + cos a * cos a = 1.
Proof. exact (sin2_cos2 a). Qed.

(** Closes [lhs = u] where [lhs] is [u * (s * s + c * c)] as a polynomial. *)
Ltac by_pythagoras H u :=
  match type of H with
  | ?one = 1 => transitivity (u * one); [ring | rewrite H; ring]
  end.

Lemma map_fixes (f : vec3 -> vec3) (vertices : list vec3) :
  (forall v, f v = v) -> map f vertices = vertices.
Proof. intros H. rewrite <- (map_id vertices) at 2. apply map_ext, H. Qed.

Lemma rotate_x_back vertices theta :
  rotate_x (rotate_x vertices theta) (- theta) = vertices.
Proof.
  unfold rotate_x, Np.matmul. rewrite map_map, deg2rad_opp, cos_neg, sin_neg.
  pose proof (sin2_cos2_prod (Np.deg2rad theta)) as H.
  set (c := cos (Np.deg2rad theta)) in *. set (s := sin (Np.deg2rad theta)) in *.
  apply map_fixes. intros [[x y] z]. cbn [Np.T Np.row_matmul].
  apply vec3_ext; [ring | by_pythagoras H y | by_pythagoras H z].
Qed.

Lemma rotate_y_back vertices theta :
  rotate_y (rotate_y vertices theta) (- theta) = vertices.
Proof.
  unfold rotate_y, Np.matmul. rewrite map_map, deg2rad_opp, cos_neg, sin_neg.
  pose proof (sin2_cos2_prod (Np.deg2rad theta)) as H.
  set (c := cos (Np.deg2rad theta)) in *. set (s := sin (Np.deg2rad theta)) in *.
  apply map_fixes. intros [[x y] z]. cbn [Np.T Np.row_matmul].
  apply vec3_ext; [by_pythagoras H x | ring | by_pythagoras H z].
Qed.

Lemma rotate_z_back vertices theta :
  rotate_z (rotate_z vertices theta) (- theta) = vertices.
Proof.
  unfold rotate_z, Np.matmul. rewrite map_map, deg2rad_opp, cos_neg, sin_neg.
  pose proof (sin2_cos2_prod (Np.deg2rad theta)) as H.
  set (c := cos (Np.deg2rad theta)) in *. set (s := sin (Np.deg2rad theta)) in *.
  apply map_fixes. intros [[x y] z]. cbn [Np.T Np.row_matmul].
  apply vec3_ext; [by_pythagoras H x | by_pythagoras H y | ring].
Qed.

(** C6. Over real arithmetic, rotating a vertex set by [theta] degrees
    about the x, y or z axis and then by [- theta] about the same axis
    gives back the original positions. *)
Theorem rotation_round_trip :
  forall (vertices : list vec3) (theta : R),
    rotate_x (rotate_x vertices theta) (- theta) = vertices
    /\ rotate_y (rotate_y vertices theta) (- theta) = vertices
    /\ rotate_z (rotate_z vertices theta) (- theta) = vertices.
Proof.
  intros. split; [apply rotate_x_back|]. split; [apply rotate_y_back|apply rotate_z_back].
Qed.

End Rotations.

Section TransformOrder.
Local Open Scope R_scope.
Local Open Scope string_scope.

Lemma translate_then_rotate (p : vec3) :
  apply_transformations [translate_1_0_0; rotate_z_90] [p]
  = IO.ret (rotate_z (translate [p] 1 0 0) 90).
Proof. reflexivity. Qed.

Lemma rotate_then_translate (p : vec3) :
  apply_transformations [rotate_z_90; translate_1_0_0] [p]
  = IO.ret (translate (rotate_z [p] 90) 1 0 0).
Proof. reflexivity. Qed.

Lemma origin_translate_then_rotate :
  rotate_z (translate [origin] 1 0 0) 90 = [(0, 1, 0)].
Proof.
  unfold origin, rotate_z, translate, Np.matmul, Np.add_row. rewrite deg2rad_90, cos_PI2, sin_PI2.
  cbn [map Np.T Np.row_matmul]. f_equal. apply vec3_ext; ring.
Qed.

Lemma origin_rotate_then_translate :
  translate (rotate_z [origin] 90) 1 0 0 = [(1, 0, 0)].
Proof.
  unfold origin, rotate_z, translate, Np.matmul, Np.add_row. rewrite deg2rad_90, cos_PI2, sin_PI2.
  cbn [map Np.T Np.row_matmul]. f_equal. apply vec3_ext; ring.
Qed.

(** C7. There is a point on which translating by (1,0,0) and then
    rotating by 90 degrees about z differs from rotating first and
    translating second, as function calls and as the two transformation
    lists run by the scene builder's loop. *)
Theorem translate_rotate_z_order :
  exists p : vec3,
    rotate_z (translate [p] 1 0 0) 90 <> translate (rotate_z [p] 90) 1 0 0
    /\ apply_transformations [translate_1_0_0; rotate_z_90] [p]
       <> apply_transformations [rotate_z_90; translate_1_0_0] [p].
Proof.
  exists origin.
  rewrite translate_then_rotate, rotate_then_translate.
  rewrite origin_translate_then_rotate, origin_rotate_then_translate.
  split; intros H; inversion H; lra.
Qed.

End TransformOrder.

(** ** The cube of side 2 *)

Section UnitCube.
Local Open Scope R_scope.

Lemma cube_2_vertices :
  fst cube_2 =
  [ (-1, -1, -1); (1, -1, -1); (1, 1, -1); (-1, 1, -1);
    (-1, -1, 1); (1, -1, 1); (1, 1, 1); (-1, 1, 1) ].
Proof.
  unfold cube_2, create_cube_mesh. cbn [fst].
  repeat (apply (f_equal2 cons); [apply vec3_ext; lra|]). reflexivity.
Qed.

(** C9. The cube of center (0,0,0) and size (2,2,2) has exactly 8
    vertices, they are the 8 sign combinations (+-1, +-1, +-1), each
    once, and it has exactly 12 faces, each a triangle of three indices. *)
Theorem cube_2_corners_and_faces :
  length (fst cube_2) = 8%nat
  /\ (forall x y z : R,
        In (x, y, z) (fst cube_2)
        <-> (x = -1 \/ x = 1) /\ (y = -1 \/ y = 1) /\ (z = -1 \/ z = 1))
  /\ NoDup (fst cube_2)
  /\ length (snd cube_2) = 12%nat
  /\ Forall (fun f => length (face_indices f) = 3%nat) (snd cube_2).
Proof.
  split; [reflexivity|]. split; [|split; [|split]].
  - intros x y z. rewrite cube_2_vertices. cbn [In]. split.
    + intros H. repeat destruct H as [H|H]; try contradiction;
        inversion H; subst; repeat split; auto.
    + intros [[-> | ->] [[-> | ->] [-> | ->]]]; tauto.
  - rewrite cube_2_vertices.
    repeat (apply NoDup_cons;
            [cbn [In]; intros H; repeat destruct H as [H|H]; try contradiction;
             inversion H; lra|]).
    apply NoDup_nil.
  - reflexivity.
  - unfold cube_2, create_cube_mesh. cbn [snd].
    repeat (apply Forall_cons; [reflexivity|]). apply Forall_nil.
Qed.

End UnitCube.

(** ** The monad of the scene builder *)

Section IOFacts.
Context {A B C : Type}.

Lemma bind_ret_l (a : A) (k : A -> io B) : IO.bind (IO.ret a) k = k a.
Proof. unfold IO.bind, IO.ret. now destruct (k a). Qed.

Lemma bind_ret_r (m : io A) : IO.bind m IO.ret = m.
Proof. destruct m as [out [a|e]]; cbn; [now rewrite app_nil_r | reflexivity]. Qed.

Lemma bind_assoc (m : io A) (f : A -> io B) (g : B -> io C) :
  IO.bind (IO.bind m f) g = IO.bind m (fun a => IO.bind (f a) g).
Proof.
  destruct m as [out [a|e]]; cbn; [|reflexivity].
  destruct (f a) as [out' [b|e]]; cbn; [|reflexivity].
  destruct (g b) as [out'' r]. now rewrite app_assoc.
Qed.

Lemma bind_ext (m : io A) (f g : A -> io B) :
  (forall a, f a = g a) -> IO.bind m f = IO.bind m g.
Proof. intros H. destruct m as [out [a|e]]; cbn; [now rewrite H | reflexivity]. Qed.

Lemma bind_raise (e : exn) (k : A -> io B) : IO.bind (IO.raise e) k = IO.raise e.
Proof. reflexivity. Qed.

Lemma bind_outcome (m : io A) (k : A -> io B) :
  outcome (IO.bind m k)
  = match outcome m with Ok a => outcome (k a) | Raise e => Raise e end.
Proof. destruct m as [out [a|e]]; cbn; [now destruct (k a) | reflexivity]. Qed.

Lemma bind_stdout (m : io A) (k : A -> io B) :
  stdout (IO.bind m k)
  = (stdout m ++ match outcome m with Ok a => stdout (k a) | Raise _ => [] end)%list.
Proof.
  destruct m as [out [a|e]]; cbn; [now destruct (k a) | now rewrite app_nil_r].
Qed.

End IOFacts.

Lemma io_eta {A} (m : io A) : m = (stdout m, outcome m).
Proof. now destruct m. Qed.

(** ** The scene builder *)

Section SceneBuilder.
Local Open Scope string_scope.
Local Open Scope list_scope.

(** [build_scene] unfolded once. *)
Lemma build_scene_eq (node : scene_graph_node) :
  build_scene node
  = IO.bind (getitem "type" (node_type node)) (fun type =>
      if type =? "primitive" then build_primitive node
      else if type =? "group" then
        match children node with
        | None => IO.raise (KeyError "children")
        | Some children => extend_traces build_scene children []
        end
      else IO.ret []).
Proof. destruct node; reflexivity. Qed.

(** C10. A node whose ["type"] is neither ["primitive"] nor ["group"]
    builds to the empty list: nothing is raised, nothing is printed. *)
Theorem build_scene_other_type :
  forall (node : scene_graph_node) (type : string),
    node_type node = Some type ->
    type <> "primitive" -> type <> "group" ->
    build_scene node = ([], Ok []).
Proof.
  intros node type Htype Hp Hg. rewrite build_scene_eq, Htype.
  cbn [getitem]. rewrite bind_ret_l.
  apply String.eqb_neq in Hp, Hg. now rewrite Hp, Hg.
Qed.

Lemma build_scene_other_type_witness : build_scene decoration = ([], Ok []).
Proof.
  apply (build_scene_other_type decoration "light"); [reflexivity | | ]; discriminate.
Defined.

Lemma unknown_shape_tests (shape : string) :
  ~ In shape known_shapes ->
  (shape =? "cube") = false /\ (shape =? "cylinder") = false
  /\ (shape =? "cone") = false /\ (shape =? "sphere") = false
  /\ (shape =? "torus") = false.
Proof.
  intros H. repeat split; apply String.eqb_neq; intros ->; apply H; cbn; tauto.
Qed.

Lemma initial_mesh_unknown (shape : string) (node : scene_graph_node) :
  ~ In shape known_shapes ->
  initial_mesh shape node = IO.raise (ValueError ("Unknown primitive shape: " ++ shape)).
Proof.
  intros H. destruct (unknown_shape_tests shape H) as (H1 & H2 & H3 & H4 & H5).
  unfold initial_mesh. now rewrite H1, H2, H3, H4, H5.
Qed.

(** C3. A primitive node whose ["shape"] is none of the five known
    shapes makes [build_scene] raise, before anything is printed: no
    mesh list, empty or not, is returned.  When the node has a
    ["color"], the exception is the [ValueError] naming the shape. *)
Theorem build_scene_unknown_shape :
  forall (node : scene_graph_node) (s : string),
    node_type node = Some "primitive" ->
    shape node = Some s ->
    ~ In s known_shapes ->
    (exists e, build_scene node = ([], Raise e))
    /\ (forall c, color node = Some c ->
          build_scene node = ([], Raise (ValueError ("Unknown primitive shape: " ++ s)))).
Proof.
  intros node s Htype Hshape Hs.
  assert (E : build_scene node
              = IO.bind (getitem "color" (color node)) (fun _ =>
                  IO.raise (ValueError ("Unknown primitive shape: " ++ s)))).
  { rewrite build_scene_eq, Htype. cbn [getitem]. rewrite bind_ret_l.
    cbn [String.eqb Ascii.eqb Bool.eqb]. unfold build_primitive.
    rewrite Hshape. cbn [getitem]. rewrite bind_ret_l.
    apply bind_ext. intros c. now rewrite initial_mesh_unknown. }
  rewrite E. split.
  - destruct (color node); cbn; eauto.
  - intros c ->. reflexivity.
Qed.

Lemma build_scene_unknown_shape_witness :
  (exists e, build_scene pyramid = ([], Raise e))
  /\ (forall c, color pyramid = Some c ->
        build_scene pyramid = ([], Raise (ValueError "Unknown primitive shape: pyramid"))).
Proof.
  apply (build_scene_unknown_shape pyramid "pyramid"); [reflexivity | reflexivity | ].
  cbn. intros H. repeat destruct H as [H|H]; try discriminate H. exact H.
Defined.

End SceneBuilder.

(** ** Unknown transformation types *)

Section UnknownTransformation.
Local Open Scope string_scope.
Local Open Scope list_scope.

(** The loop body on an entry that has both keys: the two reads
    succeed and the dispatch on the type runs. *)
Lemma apply_transform_eq (vertices : list vec3) (type : string) (params : list R) :
  apply_transform vertices (Transform type params)
  = if type =? "translate" then call_star3 "translate" (translate vertices) params
    else if type =? "rotate_x" then call_star1 "rotate_x" (rotate_x vertices) params
    else if type =? "rotate_y" then call_star1 "rotate_y" (rotate_y vertices) params
    else if type =? "rotate_z" then call_star1 "rotate_z" (rotate_z vertices) params
    else if type =? "scale" then call_star3 "scale" (scale vertices) params
    else IO.bind (IO.print ("Warning: Unknown transformation type: " ++ type))
                 (fun _ => IO.ret vertices).
Proof.
  unfold apply_transform, Transform. cbn [t_type t_params getitem].
  now rewrite !bind_ret_l.
Qed.

Lemma apply_transform_unknown (vertices : list vec3) (type : string) (params : list R) :
  ~ In type known_transformations ->
  apply_transform vertices (Transform type params) = ([warning type], Ok vertices).
Proof.
  intros H. rewrite apply_transform_eq.
  assert (E : forall k, In k known_transformations -> (type =? k) = false).
  { intros k Hk. apply String.eqb_neq. intros E. apply H. now rewrite E. }
  rewrite !E by (cbn; tauto). reflexivity.
Qed.

Lemma apply_transformations_app (pre post : list transform_info) (vertices : list vec3) :
  apply_transformations (pre ++ post) vertices
  = IO.bind (apply_transformations pre vertices) (apply_transformations post).
Proof.
  revert vertices. induction pre as [|info pre IH]; intros vertices.
  - cbn [app apply_transformations]. now rewrite bind_ret_l.
  - cbn [app apply_transformations]. rewrite bind_assoc.
    apply bind_ext. intros v. apply IH.
Qed.

Lemma apply_transformations_unknown pre type params post vertices :
  ~ In type known_transformations ->
  apply_transformations (pre ++ Transform type params :: post) vertices
  = IO.bind (apply_transformations pre vertices) (fun vertices' =>
      IO.bind (IO.print (warning type)) (fun _ => apply_transformations post vertices')).
Proof.
  intros H. rewrite apply_transformations_app. apply bind_ext. intros v.
  cbn [apply_transformations]. now rewrite apply_transform_unknown.
Qed.

Lemma build_primitive_eq (node : scene_graph_node) (infos : list transform_info) :
  transformations node = Some infos ->
  build_primitive node = IO.bind (primitive_head node) (primitive_tail infos).
Proof.
  intros H. unfold build_primitive, primitive_head. rewrite H.
  rewrite bind_assoc. apply bind_ext. intros shape.
  rewrite bind_assoc. apply bind_ext. intros color.
  rewrite bind_assoc. apply bind_ext. intros [vertices faces].
  rewrite bind_ret_l. cbn [getitem primitive_tail]. now rewrite bind_ret_l.
Qed.

Lemma build_scene_primitive (node : scene_graph_node) (infos : list transform_info) :
  node_type node = Some "primitive" ->
  build_scene (with_transformations node infos)
  = IO.bind (primitive_head node) (primitive_tail infos).
Proof.
  intros H. rewrite build_scene_eq.
  destruct node; cbn [with_transformations node_type] in *. rewrite H.
  cbn [getitem]. rewrite bind_ret_l. cbn [String.eqb Ascii.eqb Bool.eqb].
  now rewrite build_primitive_eq with (infos := infos).
Qed.

Lemma with_transformations_same (node : scene_graph_node) infos :
  transformations node = Some infos -> with_transformations node infos = node.
Proof. destruct node; cbn. now intros ->. Qed.

(** C4, amended. In a primitive node, a transformation entry that has
    its ["params"] key, whose type is unknown and that the loop reaches
    prints one warning and changes nothing else: the entry itself
    returns the vertices as they were, the node builds to the same
    meshes (or the same exception) as without the entry, and the output
    is that of the node without the entry with the warning put in where
    the entry stood. *)
Theorem build_scene_unknown_transformation :
  forall (node : scene_graph_node) (pre post : list transform_info)
         (type : string) (params : list R),
    node_type node = Some "primitive" ->
    transformations node = Some (pre ++ Transform type params :: post) ->
    ~ In type known_transformations ->
    (forall vertices,
        apply_transform vertices (Transform type params) = ([warning type], Ok vertices))
    /\ outcome (build_scene node)
       = outcome (build_scene (with_transformations node (pre ++ post)))
    /\ (forall traces,
          outcome (build_scene (with_transformations node pre)) = Ok traces ->
          exists before after,
            stdout (build_scene (with_transformations node (pre ++ post)))
            = before ++ after
            /\ stdout (build_scene node) = before ++ warning type :: after).
Proof.
  intros node pre post type params Htype Hinfos Hunknown.
  split; [intros; now apply apply_transform_unknown|].
  assert (E : build_scene node
              = IO.bind (primitive_head node)
                        (primitive_tail (pre ++ Transform type params :: post))).
  { rewrite <- (with_transformations_same node _ Hinfos) at 1.
    now apply build_scene_primitive. }
  rewrite E, !build_scene_primitive by assumption.
  destruct (primitive_head node) as [out0 [[[vertices faces] color]|e]];
    [|split; [reflexivity | intros traces H; discriminate H]].
  cbn [IO.bind primitive_tail].
  rewrite apply_transformations_unknown by assumption.
  rewrite apply_transformations_app.
  destruct (apply_transformations pre vertices) as [out1 [v1|e]];
    [|split; [reflexivity | intros traces H; discriminate H]].
  cbn [IO.bind].
  destruct (apply_transformations post v1) as [out2 [v2|e]]; cbn.
  - split; [reflexivity|]. intros _ _.
    exists (out0 ++ out1), (out2 ++ []).
    rewrite !app_nil_r, <- !app_assoc. split; reflexivity.
  - split; [reflexivity|]. intros _ _.
    exists (out0 ++ out1), out2.
    rewrite <- !app_assoc. split; reflexivity.
Qed.

Lemma build_scene_unknown_transformation_witness :
  (forall vertices,
      apply_transform vertices (Transform "shear" [1]%R)
      = (["Warning: Unknown transformation type: shear"], Ok vertices))
  /\ outcome (build_scene spun_cube)
     = outcome (build_scene
                  (with_transformations spun_cube
                     ([Transform "translate" [0; 0; 1]%R]
                      ++ [Transform "rotate_z" [90]%R])))
  /\ (forall traces,
        outcome (build_scene
                   (with_transformations spun_cube [Transform "translate" [0; 0; 1]%R]))
        = Ok traces ->
        exists before after,
          stdout (build_scene
                    (with_transformations spun_cube
                       ([Transform "translate" [0; 0; 1]%R]
                        ++ [Transform "rotate_z" [90]%R])))
          = before ++ after
          /\ stdout (build_scene spun_cube)
             = before ++ "Warning: Unknown transformation type: shear" :: after).
Proof.
  apply (build_scene_unknown_transformation spun_cube
           [Transform "translate" [0; 0; 1]%R] [Transform "rotate_z" [90]%R]
           "shear" [1]%R); [reflexivity | reflexivity | ].
  cbn. intros H. repeat destruct H as [H|H]; try discriminate H. exact H.
Defined.

(** C4 as it was stated fails on an entry of unknown type that has no
    ["params"] key: the key is read before the type is looked at, so
    the build raises KeyError and no warning is printed. *)
Lemma unknown_transformation_without_params :
  node_type paramless_cube = Some "primitive"
  /\ shape paramless_cube = Some "cube"
  /\ transformations paramless_cube = Some [Entry (Some "shear") None]
  /\ ~ In "shear" known_transformations
  /\ build_scene paramless_cube = ([], Raise (KeyError "params")).
Proof.
  repeat split; try reflexivity.
  cbn. intros H. repeat destruct H as [H|H]; try discriminate H. exact H.
Qed.

(** The sample cube builds to one mesh and prints the one warning. *)
Example spun_cube_warns :
  fmap (map m_color) (outcome (build_scene spun_cube)) = Ok ["blue"]
  /\ stdout (build_scene spun_cube) = ["Warning: Unknown transformation type: shear"].
Proof. split; reflexivity. Qed.

End UnknownTransformation.

(** ** Groups *)

Section Groups.
Local Open Scope string_scope.
Local Open Scope list_scope.

Lemma extend_traces_sequence (build : scene_graph_node -> io (list Mesh3d))
      (children : list scene_graph_node) (traces : list Mesh3d) :
  extend_traces build children traces
  = IO.bind (sequence (map build children)) (fun rs => IO.ret (traces ++ concat rs)).
Proof.
  revert traces. induction children as [|child rest IH]; intros traces.
  - cbn [extend_traces map sequence concat]. now rewrite bind_ret_l, app_nil_r.
  - cbn [extend_traces map sequence]. rewrite bind_assoc. apply bind_ext. intros ts.
    rewrite IH, bind_assoc. apply bind_ext. intros rs.
    rewrite bind_ret_l. cbn [concat]. now rewrite app_assoc.
Qed.

Lemma sequence_all_ok {A} (results : list (list string * A)) :
  sequence (map (fun r => (fst r, Ok (snd r))) results)
  = (concat (map fst results), Ok (map snd results)).
Proof.
  induction results as [|[out a] results IH]; [reflexivity|].
  cbn [map sequence fst snd]. rewrite IH. cbn. now rewrite app_nil_r.
Qed.

Lemma build_scene_group_eq (node : scene_graph_node) (cs : list scene_graph_node) :
  node_type node = Some "group" -> children node = Some cs ->
  build_scene node
  = IO.bind (sequence (map build_scene cs)) (fun rs => IO.ret (concat rs)).
Proof.
  intros Htype Hchildren. rewrite build_scene_eq, Htype, Hchildren.
  cbn [getitem]. rewrite bind_ret_l. cbn [String.eqb Ascii.eqb Bool.eqb].
  apply extend_traces_sequence.
Qed.

(** A primitive node that builds gives one mesh, of the node's color. *)
Lemma build_scene_primitive_single (node : scene_graph_node) (traces : list Mesh3d) :
  node_type node = Some "primitive" ->
  outcome (build_scene node) = Ok traces ->
  exists m, traces = [m] /\ color node = Some (m_color m).
Proof.
  intros Htype. rewrite build_scene_eq, Htype. cbn [getitem]. rewrite bind_ret_l.
  cbn [String.eqb Ascii.eqb Bool.eqb]. unfold build_primitive.
  destruct (shape node) as [s|]; [|discriminate]. cbn [getitem]. rewrite bind_ret_l.
  destruct (color node) as [c|]; [|discriminate]. cbn [getitem]. rewrite bind_ret_l.
  rewrite bind_outcome.
  destruct (outcome (initial_mesh s node)) as [[vertices faces]|]; [|discriminate].
  rewrite bind_outcome.
  destruct (outcome (getitem "transformations" (transformations node))) as [infos|];
    [|discriminate].
  rewrite bind_outcome.
  destruct (outcome (apply_transformations infos vertices)) as [v|]; [|discriminate].
  cbn. intros H. apply Ok_inj in H. subst traces. eexists. split; reflexivity.
Qed.

(** C8. A group node builds to the concatenation, in child order, of
    what its children build to (and raises what the first failing child
    raises); when its children are exactly two primitive nodes and it
    builds, the result has exactly two meshes, the k-th of the k-th
    child's color. *)
Theorem build_scene_group :
  forall (node : scene_graph_node) (cs : list scene_graph_node),
    node_type node = Some "group" ->
    children node = Some cs ->
    build_scene node
    = IO.bind (sequence (map build_scene cs)) (fun rs => IO.ret (concat rs))
    /\ (forall results : list (list string * list Mesh3d),
          map build_scene cs = map (fun r => (fst r, Ok (snd r))) results ->
          build_scene node = (concat (map fst results), Ok (concat (map snd results))))
    /\ (forall c1 c2 traces,
          cs = [c1; c2] ->
          node_type c1 = Some "primitive" -> node_type c2 = Some "primitive" ->
          outcome (build_scene node) = Ok traces ->
          exists m1 m2,
            traces = [m1; m2]
            /\ color c1 = Some (m_color m1) /\ color c2 = Some (m_color m2)).
Proof.
  intros node cs Htype Hchildren.
  pose proof (build_scene_group_eq node cs Htype Hchildren) as E.
  split; [exact E|]. split.
  - intros results H. rewrite E, H, sequence_all_ok. cbn. now rewrite app_nil_r.
  - intros c1 c2 traces -> H1 H2. rewrite E. cbn [map sequence].
    rewrite !bind_outcome.
    destruct (outcome (build_scene c1)) as [t1|] eqn:E1; [|discriminate].
    rewrite !bind_outcome.
    destruct (outcome (build_scene c2)) as [t2|] eqn:E2; [|discriminate].
    destruct (build_scene_primitive_single c1 t1 H1 E1) as [m1 [-> Hc1]].
    destruct (build_scene_primitive_single c2 t2 H2 E2) as [m2 [-> Hc2]].
    cbn. intros H. apply Ok_inj in H. subst traces. now exists m1, m2.
Qed.

Lemma build_scene_group_witness :
  build_scene fin_and_ring
  = IO.bind (sequence (map build_scene [fin; ring])) (fun rs => IO.ret (concat rs))
    /\ (forall results : list (list string * list Mesh3d),
          map build_scene [fin; ring] = map (fun r => (fst r, Ok (snd r))) results ->
          build_scene fin_and_ring
          = (concat (map fst results), Ok (concat (map snd results))))
    /\ (forall c1 c2 traces,
          [fin; ring] = [c1; c2] ->
          node_type c1 = Some "primitive" -> node_type c2 = Some "primitive" ->
          outcome (build_scene fin_and_ring) = Ok traces ->
          exists m1 m2,
            traces = [m1; m2]
            /\ color c1 = Some (m_color m1) /\ color c2 = Some (m_color m2)).
Proof.
  apply (build_scene_group fin_and_ring [fin; ring]); reflexivity.
Defined.

(** The sample group builds, silently, to a blue mesh then a gold one. *)
Example fin_and_ring_colors :
  fmap (map m_color) (outcome (build_scene fin_and_ring)) = Ok ["blue"; "gold"]
  /\ stdout (build_scene fin_and_ring) = [].
Proof. split; reflexivity. Qed.

End Groups.

(** * Further properties *)

(** ** Algebra of the transformation functions *)

Section TransformAlgebra.
Local Open Scope R_scope.

Lemma map_map_ext {A B C} (f : A -> B) (g : B -> C) (h : A -> C) (l : list A) :
  (forall a, g (f a) = h a) -> map g (map f l) = map h l.
Proof. intros H. rewrite map_map. apply map_ext, H. Qed.

Lemma scale_map vertices sx sy sz :
  scale vertices sx sy sz
  = map (fun v : vec3 => let '(x, y, z) := v in (x * sx, y * sy, z * sz)) vertices.
Proof. reflexivity. Qed.

(** X1. Translations add up: translating by one offset and then by
    another is translating by their sum; the zero offset changes
    nothing and the opposite offset undoes a translation. *)
Theorem translate_compose :
  forall (vertices : list vec3) (a b c a' b' c' : R),
    translate (translate vertices a b c) a' b' c'
    = translate vertices (a + a') (b + b') (c + c')
    /\ translate vertices 0 0 0 = vertices
    /\ translate (translate vertices a b c) (- a) (- b) (- c) = vertices.
Proof.
  intros. rewrite !translate_map. repeat split.
  - apply map_map_ext. intros [[x y] z]. apply vec3_ext; ring.
  - apply map_fixes. intros [[x y] z]. apply vec3_ext; ring.
  - rewrite map_map. apply map_fixes. intros [[x y] z]. apply vec3_ext; ring.
Qed.

(** X2. Over real arithmetic, scalings multiply: scaling by one triple
    of factors and then by another is scaling by their products, and
    the factors (1,1,1) change nothing. *)
Theorem scale_compose :
  forall (vertices : list vec3) (a b c a' b' c' : R),
    scale (scale vertices a b c) a' b' c' = scale vertices (a * a') (b * b') (c * c')
    /\ scale vertices 1 1 1 = vertices.
Proof.
  intros. rewrite !scale_map. split.
  - apply map_map_ext. intros [[x y] z]. apply vec3_ext; ring.
  - apply map_fixes. intros [[x y] z]. apply vec3_ext; ring.
Qed.

(** X3. Over real arithmetic, a scaling by non-zero factors is undone
    by the scaling with the inverse factors. *)
Theorem scale_undo :
  forall (vertices : list vec3) (a b c : R),
    a <> 0 -> b <> 0 -> c <> 0 ->
    scale (scale vertices a b c) (/ a) (/ b) (/ c) = vertices.
Proof.
  intros vertices a b c Ha Hb Hc. rewrite !scale_map, map_map.
  apply map_fixes. intros [[x y] z]. apply vec3_ext; field; assumption.
Qed.

Lemma scale_undo_witness :
  scale (scale [(1, 2, 3)] 2 4 5) (/ 2) (/ 4) (/ 5) = [(1, 2, 3)].
Proof. apply (scale_undo [(1, 2, 3)] 2 4 5); lra. Defined.

(** A scaling with a zero factor flattens the set and cannot be undone:
    two different vertex sets have the same image. *)
Lemma scale_zero_collapses :
  scale [(1, 0, 0)] 0 1 1 = scale [(2, 0, 0)] 0 1 1.
Proof. rewrite !scale_map. cbn [map]. f_equal. apply vec3_ext; ring. Qed.

Lemma deg2rad_plus (a b : R) : Np.deg2rad (a + b) = Np.deg2rad a + Np.deg2rad b.
Proof. unfold Np.deg2rad. ring. Qed.

Lemma deg2rad_0 : Np.deg2rad 0 = 0.
Proof. unfold Np.deg2rad. ring. Qed.

Lemma deg2rad_360 : Np.deg2rad 360 = 2 * PI.
Proof. unfold Np.deg2rad, Np.pi. field. Qed.

Lemma rotate_x_map vertices theta :
  rotate_x vertices theta
  = map (fun v : vec3 =>
           let '(x, y, z) := v in
           (x * 1 + y * 0 + z * 0,
            x * 0 + y * cos (Np.deg2rad theta) + z * - sin (Np.deg2rad theta),
            x * 0 + y * sin (Np.deg2rad theta) + z * cos (Np.deg2rad theta)))
        vertices.
Proof. unfold rotate_x, Np.matmul. apply map_ext. now intros [[x y] z]. Qed.

Lemma rotate_y_map vertices theta :
  rotate_y vertices theta
  = map (fun v : vec3 =>
           let '(x, y, z) := v in
           (x * cos (Np.deg2rad theta) + y * 0 + z * sin (Np.deg2rad theta),
            x * 0 + y * 1 + z * 0,
            x * - sin (Np.deg2rad theta) + y * 0 + z * cos (Np.deg2rad theta)))
        vertices.
Proof. unfold rotate_y, Np.matmul. apply map_ext. now intros [[x y] z]. Qed.

Lemma rotate_z_map vertices theta :
  rotate_z vertices theta
  = map (fun v : vec3 =>
           let '(x, y, z) := v in
           (x * cos (Np.deg2rad theta) + y * - sin (Np.deg2rad theta) + z * 0,
            x * sin (Np.deg2rad theta) + y * cos (Np.deg2rad theta) + z * 0,
            x * 0 + y * 0 + z * 1))
        vertices.
Proof. unfold rotate_z, Np.matmul. apply map_ext. now intros [[x y] z]. Qed.

(** X4. Over real arithmetic, rotations about one axis add their
    angles. *)
Theorem rotation_compose :
  forall (vertices : list vec3) (alpha beta : R),
    rotate_x (rotate_x vertices alpha) beta = rotate_x vertices (alpha + beta)
    /\ rotate_y (rotate_y vertices alpha) beta = rotate_y vertices (alpha + beta)
    /\ rotate_z (rotate_z vertices alpha) beta = rotate_z vertices (alpha + beta).
Proof.
  intros. rewrite !rotate_x_map, !rotate_y_map, !rotate_z_map.
  rewrite deg2rad_plus, cos_plus, sin_plus.
  repeat split; apply map_map_ext; intros [[x y] z]; apply vec3_ext; ring.
Qed.

(** X5. Over real arithmetic, a rotation by 0 degrees changes nothing,
    and adding a full turn of 360 degrees to the angle does not change
    the rotation. *)
Theorem rotation_full_turn :
  forall (vertices : list vec3) (theta : R),
    rotate_x vertices 0 = vertices
    /\ rotate_y vertices 0 = vertices
    /\ rotate_z vertices 0 = vertices
    /\ rotate_x vertices (theta + 360) = rotate_x vertices theta
    /\ rotate_y vertices (theta + 360) = rotate_y vertices theta
    /\ rotate_z vertices (theta + 360) = rotate_z vertices theta.
Proof.
  intros. rewrite !rotate_x_map, !rotate_y_map, !rotate_z_map.
  rewrite deg2rad_plus, deg2rad_0, deg2rad_360, cos_plus, sin_plus.
  rewrite cos_0, sin_0, cos_2PI, sin_2PI.
  repeat split;
    solve [ apply map_fixes; intros [[x y] z]; apply vec3_ext; ring
          | apply map_ext; intros [[x y] z]; apply vec3_ext; ring ].
Qed.

Lemma combine_map_map {A B C D} (f : A -> C) (g : B -> D) (l : list A) (l' : list B) :
  combine (map f l) (map g l') = map (fun p => (f (fst p), g (snd p))) (combine l l').
Proof.
  revert l'. induction l as [|a l IH]; intros [|b l']; try reflexivity.
  cbn [map combine fst snd]. now rewrite IH.
Qed.

(** X6. Over real arithmetic, rotations are rigid: about each axis, a
    rotation keeps the distance of every vertex from the origin and
    the distance between the corresponding vertices of two sets rotated
    together, and it keeps the coordinate along its axis. *)
Theorem rotation_rigid :
  forall (u v : list vec3) (theta : R),
    (map norm2 (rotate_x v theta) = map norm2 v
     /\ map pair_dist2 (combine (rotate_x u theta) (rotate_x v theta))
        = map pair_dist2 (combine u v)
     /\ column0 (rotate_x v theta) = column0 v)
    /\ (map norm2 (rotate_y v theta) = map norm2 v
        /\ map pair_dist2 (combine (rotate_y u theta) (rotate_y v theta))
           = map pair_dist2 (combine u v)
        /\ column1 (rotate_y v theta) = column1 v)
    /\ (map norm2 (rotate_z v theta) = map norm2 v
        /\ map pair_dist2 (combine (rotate_z u theta) (rotate_z v theta))
           = map pair_dist2 (combine u v)
        /\ column2 (rotate_z v theta) = column2 v).
Proof.
  intros. rewrite !rotate_x_map, !rotate_y_map, !rotate_z_map.
  pose proof (sin2_cos2_prod (Np.deg2rad theta)) as H.
  set (c := cos (Np.deg2rad theta)) in *. set (s := sin (Np.deg2rad theta)) in *.
  unfold column0, column1, column2. rewrite !combine_map_map.
  assert (Hc : c * c = 1 - s * s) by (rewrite <- H; ring).
  repeat split; apply map_map_ext.
  all: try (intros [[x y] z]; cbv beta iota delta [fst snd norm2]; ring [Hc]).
  all: intros [[[x y] z] [[x' y'] z']];
    cbv beta iota delta [pair_dist2 dist2 fst snd]; ring [Hc].
Qed.

(** X7. No transformation function adds or drops a vertex. *)
Theorem transformations_keep_count :
  forall (vertices : list vec3) (a b c theta : R),
    length (translate vertices a b c) = length vertices
    /\ length (rotate_x vertices theta) = length vertices
    /\ length (rotate_y vertices theta) = length vertices
    /\ length (rotate_z vertices theta) = length vertices
    /\ length (scale vertices a b c) = length vertices.
Proof.
  intros. rewrite translate_map, scale_map, rotate_x_map, rotate_y_map, rotate_z_map.
  now rewrite !length_map.
Qed.


End TransformAlgebra.

(** ** Sizes of the generated meshes *)

Section MeshSizes.

Lemma range_nonpositive (n : Z) : (n <= 0)%Z -> range n = [].
Proof. intros H. unfold range. now replace (Z.to_nat n) with 0%nat by lia. Qed.

Lemma flat_map_all_nil {A B} (f : A -> list B) (l : list A) :
  (forall a, f a = []) -> flat_map f l = [].
Proof. intros H. induction l as [|a l IH]; [reflexivity|]. cbn. now rewrite H, IH. Qed.

Lemma cylinder_face_count center radius height segments :
  (0 <= segments)%Z ->
  fmap face_count (create_cylinder_mesh center radius height segments)
  = Ok (4 * segments)%Z.
Proof.
  intros H. destruct center as [[c0 c1] c2]. unfold create_cylinder_mesh.
  destruct (linspace_ok 0 (2 * Np.pi) segments H) as [theta [-> Hlen]].
  cbn [Py.bind fmap]. f_equal. unfold face_count. unfold snd.
  rewrite !length_app, !length_map, range_length.
  rewrite flat_map_length_const with (k := 2%nat) by reflexivity.
  rewrite range_length. lia.
Qed.

Lemma cone_face_count center radius height segments :
  (0 <= segments)%Z ->
  fmap face_count (create_cone_mesh center radius height segments)
  = Ok (2 * segments)%Z.
Proof.
  intros H. destruct center as [[c0 c1] c2]. unfold create_cone_mesh.
  destruct (linspace_ok 0 (2 * Np.pi) segments H) as [theta [-> Hlen]].
  cbn [Py.bind fmap]. f_equal. unfold face_count. unfold snd.
  rewrite !length_app, !length_map, range_length. lia.
Qed.

Lemma sphere_face_count center radius segments :
  (0 < segments)%Z ->
  fmap face_count (create_sphere_mesh center radius segments)
  = Ok (2 * segments * segments)%Z.
Proof.
  intros H. destruct center as [[c0 c1] c2]. unfold create_sphere_mesh.
  destruct (Z.eqb_spec segments 0); [lia|].
  cbn [fmap Py.bind]. f_equal. unfold face_count. unfold snd.
  rewrite flat_map_length_const with (k := (Z.to_nat segments * 2)%nat).
  - rewrite range_length. lia.
  - intros i _. rewrite flat_map_length_const with (k := 2%nat) by reflexivity.
    now rewrite range_length.
Qed.

Lemma torus_face_count center major_radius minor_radius major_segments minor_segments :
  (0 <= major_segments)%Z -> (0 <= minor_segments)%Z ->
  face_count (create_torus_mesh center major_radius minor_radius
                                major_segments minor_segments)
  = (2 * major_segments * minor_segments)%Z.
Proof.
  intros HM Hm. destruct center as [[c0 c1] c2]. unfold create_torus_mesh, face_count.
  unfold snd.
  rewrite flat_map_length_const with (k := (Z.to_nat minor_segments * 2)%nat).
  - rewrite range_length. lia.
  - intros i _. rewrite flat_map_length_const with (k := 2%nat) by reflexivity.
    now rewrite range_length.
Qed.

(** X9. The cone of [segments >= 0] segments has segments + 2 vertices
    (the base ring, the apex, the base center) and 2 * segments faces
    (one side triangle and one cap triangle per segment). *)
Theorem cone_counts :
  forall (center : vec3) (radius height : R) (segments : Z),
    (0 <= segments)%Z ->
    fmap (fun m => (vertex_count m, face_count m))
         (create_cone_mesh center radius height segments)
    = Ok (segments + 2, 2 * segments)%Z.
Proof.
  intros center radius height segments H.
  pose proof (cone_vertex_count center radius height segments H) as Hv.
  pose proof (cone_face_count center radius height segments H) as Hf.
  destruct (create_cone_mesh center radius height segments) as [m|e]; [|discriminate].
  cbn [fmap Py.bind] in *. apply Ok_inj in Hv, Hf. now rewrite Hv, Hf.
Qed.

Lemma cone_counts_witness :
  fmap (fun m => (vertex_count m, face_count m))
       (create_cone_mesh (0, 0, 0)%R 1%R 3%R 20)
  = Ok (22, 40)%Z.
Proof. apply (cone_counts (0, 0, 0)%R 1%R 3%R 20). lia. Defined.

(** X10. Face counts: the cube has 8 vertices and 12 faces whatever its
    center and size; with non-negative segment counts the cylinder has
    4 * segments faces, the torus 2 * major_segments * minor_segments,
    and with a positive count the sphere has 2 * segments^2. *)
Theorem generators_face_count :
  forall (center size : vec3) (radius height major_radius minor_radius : R)
         (segments major_segments minor_segments : Z),
    (0 < segments)%Z -> (0 <= major_segments)%Z -> (0 <= minor_segments)%Z ->
    (vertex_count (create_cube_mesh center size) = 8
     /\ face_count (create_cube_mesh center size) = 12)%Z
    /\ fmap face_count (create_cylinder_mesh center radius height segments)
       = Ok (4 * segments)%Z
    /\ fmap face_count (create_sphere_mesh center radius segments)
       = Ok (2 * segments ^ 2)%Z
    /\ face_count (create_torus_mesh center major_radius minor_radius
                                     major_segments minor_segments)
       = (2 * major_segments * minor_segments)%Z.
Proof.
  intros center size radius height major_radius minor_radius
         segments major_segments minor_segments Hs HM Hm.
  split; [|split; [|split]].
  - destruct center as [[x y] z], size as [[s0 s1] s2]. split; reflexivity.
  - apply cylinder_face_count. lia.
  - rewrite sphere_face_count by assumption. f_equal. lia.
  - now apply torus_face_count.
Qed.

Lemma generators_face_count_witness :
  (vertex_count (create_cube_mesh (0, 0, 0)%R (1, 1, 1)%R) = 8
   /\ face_count (create_cube_mesh (0, 0, 0)%R (1, 1, 1)%R) = 12)%Z
  /\ fmap face_count (create_cylinder_mesh (0, 0, 0)%R 1%R 6%R 20) = Ok 80%Z
  /\ fmap face_count (create_sphere_mesh (0, 0, 0)%R 1%R 20) = Ok 800%Z
  /\ face_count (create_torus_mesh (0, 0, 0)%R 1%R (1 / 5)%R 30 15) = 900%Z.
Proof.
  apply (generators_face_count (0, 0, 0)%R (1, 1, 1)%R 1%R 6%R 1%R (1 / 5)%R 20 30 15);
    lia.
Defined.

(** X11. Segment counts that are not positive.  With 0 segments the
    sphere raises ZeroDivisionError, while the cylinder and the cone
    keep only their center and apex vertices and have no face; with a
    negative count the sphere is empty and the cylinder and the cone
    raise the ValueError of [np.linspace]; the torus is empty as soon
    as one of its two counts is not positive. *)
Theorem generators_degenerate_segments :
  forall (center : vec3) (radius height major_radius minor_radius : R)
         (segments major_segments minor_segments : Z),
    (segments < 0)%Z ->
    (major_segments <= 0 \/ minor_segments <= 0)%Z ->
    create_sphere_mesh center radius 0 = Raise (ZeroDivisionError "division by zero")
    /\ create_sphere_mesh center radius segments = Ok ([], [])
    /\ create_torus_mesh center major_radius minor_radius major_segments minor_segments
       = ([], [])
    /\ create_cylinder_mesh center radius height 0
       = Ok ([ (fst (fst center), snd (fst center), snd center - height / 2);
               (fst (fst center), snd (fst center), snd center + height / 2) ]%R, [])
    /\ create_cone_mesh center radius height 0
       = Ok ([ (fst (fst center), snd (fst center), snd center + height);
               (fst (fst center), snd (fst center), snd center) ]%R, [])
    /\ create_cylinder_mesh center radius height segments
       = Raise (ValueError ("Number of samples, " ++ str segments
                            ++ ", must be non-negative."))
    /\ create_cone_mesh center radius height segments
       = Raise (ValueError ("Number of samples, " ++ str segments
                            ++ ", must be non-negative.")).
Proof.
  intros [[c0 c1] c2] radius height major_radius minor_radius
         segments major_segments minor_segments Hs HMm.
  split; [reflexivity|]. split; [|split; [|split; [|split; [|split]]]].
  - unfold create_sphere_mesh. destruct (Z.eqb_spec segments 0); [lia|].
    rewrite (range_nonpositive (segments + 1)), (range_nonpositive segments) by lia.
    reflexivity.
  - unfold create_torus_mesh. destruct HMm as [H|H].
    + now rewrite (range_nonpositive major_segments) by assumption.
    + rewrite (range_nonpositive minor_segments) by assumption.
      cbn [map flat_map]. now rewrite !flat_map_all_nil by reflexivity.
  - reflexivity.
  - reflexivity.
  - unfold create_cylinder_mesh, Np.linspace.
    now destruct (Z.ltb_spec segments 0); [|lia].
  - unfold create_cone_mesh, Np.linspace.
    now destruct (Z.ltb_spec segments 0); [|lia].
Qed.

Lemma generators_degenerate_segments_witness :
  create_sphere_mesh (0, 0, 0)%R 1%R 0 = Raise (ZeroDivisionError "division by zero")
  /\ create_sphere_mesh (0, 0, 0)%R 1%R (-3) = Ok ([], [])
  /\ create_torus_mesh (0, 0, 0)%R 1%R (1 / 5)%R 30 0 = ([], [])
  /\ create_cylinder_mesh (0, 0, 0)%R 1%R 6%R 0
     = Ok ([ (0, 0, 0 - 6 / 2); (0, 0, 0 + 6 / 2) ]%R, [])
  /\ create_cone_mesh (0, 0, 0)%R 1%R 6%R 0
     = Ok ([ (0, 0, 0 + 6); (0, 0, 0) ]%R, [])
  /\ create_cylinder_mesh (0, 0, 0)%R 1%R 6%R (-3)
     = Raise (ValueError "Number of samples, -3, must be non-negative.")
  /\ create_cone_mesh (0, 0, 0)%R 1%R 6%R (-3)
     = Raise (ValueError "Number of samples, -3, must be non-negative.").
Proof.
  apply (generators_degenerate_segments (0, 0, 0)%R 1%R 6%R 1%R (1 / 5)%R (-3) 30 0);
    lia.
Defined.

End MeshSizes.

(** ** Where the generated vertices lie *)

Section MeshGeometry.
Local Open Scope R_scope.

Lemma column_stack_of_maps {A} (f g : A -> R) (z : R) (l : list A) :
  Np.column_stack (map f l) (map g l) (repeat z (length l))
  = map (fun a => (f a, g a, z)) l.
Proof.
  unfold Np.column_stack. induction l as [|a l IH]; [reflexivity|].
  cbn [map combine repeat length]. now rewrite IH.
Qed.

Lemma linspace_angles (segments : Z) (theta : list R) :
  Np.linspace 0 (2 * Np.pi) segments = Ok theta ->
  length theta = Z.to_nat segments.
Proof.
  unfold Np.linspace. destruct (segments <? 0)%Z; [discriminate|].
  intros H. apply Ok_inj in H. subst theta. now rewrite length_map, range_length.
Qed.

(** The cylinder's vertex array in closed form. *)
Lemma cylinder_vertices c0 c1 c2 radius height segments theta :
  Np.linspace 0 (2 * Np.pi) segments = Ok theta ->
  fmap fst (create_cylinder_mesh (c0, c1, c2) radius height segments)
  = Ok (map (fun t => (radius * cos t + c0, radius * sin t + c1, c2 - height / 2)) theta
        ++ map (fun t => (radius * cos t + c0, radius * sin t + c1, c2 + height / 2)) theta
        ++ [(c0, c1, c2 - height / 2); (c0, c1, c2 + height / 2)]).
Proof.
  intros H. unfold create_cylinder_mesh. rewrite H. cbn [Py.bind fmap fst].
  f_equal. unfold Np.vstack, Np.full. cbn [concat].
  rewrite <- (linspace_angles _ _ H), !map_map.
  rewrite !(column_stack_of_maps (fun t => radius * cos t + c0)
                                 (fun t => radius * sin t + c1)).
  now rewrite app_nil_r.
Qed.

(** The cone's vertex array in closed form. *)
Lemma cone_vertices c0 c1 c2 radius height segments theta :
  Np.linspace 0 (2 * Np.pi) segments = Ok theta ->
  fmap fst (create_cone_mesh (c0, c1, c2) radius height segments)
  = Ok (map (fun t => (radius * cos t + c0, radius * sin t + c1, c2)) theta
        ++ [(c0, c1, c2 + height); (c0, c1, c2)]).
Proof.
  intros H. unfold create_cone_mesh. rewrite H. cbn [Py.bind fmap fst].
  f_equal. unfold Np.vstack, Np.full. cbn [concat].
  rewrite <- (linspace_angles _ _ H), !map_map.
  rewrite !(column_stack_of_maps (fun t => radius * cos t + c0)
                                 (fun t => radius * sin t + c1)).
  now rewrite app_nil_r.
Qed.

Lemma on_ring (c0 c1 c2 radius t z : R) :
  on_ring_or_axis (c0, c1, c2) radius (radius * cos t + c0, radius * sin t + c1, z).
Proof.
  left. pose proof (sin2_cos2_prod t) as H.
  assert (Hc : cos t * cos t = 1 - sin t * sin t) by (rewrite <- H; ring).
  ring [Hc].
Qed.

(** X12. With a non-negative segment count the cylinder is returned,
    and, over real arithmetic, each of its vertices lies at height center_z - height/2 or
    center_z + height/2, and either on the circle of the given radius
    around the axis or on the axis. *)
Theorem cylinder_vertices_on_cylinder :
  forall (center : vec3) (radius height : R) (segments : Z),
    (0 <= segments)%Z ->
    exists m,
      create_cylinder_mesh center radius height segments = Ok m
      /\ Forall (fun v =>
                   (height_of v = snd center - height / 2
                    \/ height_of v = snd center + height / 2)
                   /\ on_ring_or_axis center radius v) (fst m).
Proof.
  intros [[c0 c1] c2] radius height segments Hs.
  destruct (linspace_ok 0 (2 * Np.pi) segments Hs) as [theta [Hl _]].
  pose proof (cylinder_vertices c0 c1 c2 radius height segments theta Hl) as Hv.
  destruct (create_cylinder_mesh (c0, c1, c2) radius height segments) as [m|e];
    [|discriminate].
  exists m. split; [reflexivity|].
  cbn [fmap Py.bind] in Hv. apply Ok_inj in Hv. rewrite Hv.
  rewrite !Forall_app. repeat split.
  - apply Forall_map_intro. intros t _. split; [now left | apply on_ring].
  - apply Forall_map_intro. intros t _. split; [now right | apply on_ring].
  - apply Forall_cons; [split; [now left | right; now split]|].
    apply Forall_cons; [split; [now right | right; now split]|]. apply Forall_nil.
Qed.

Lemma cylinder_vertices_on_cylinder_witness :
  exists m,
    create_cylinder_mesh (0, 0, 3) 1 6 20 = Ok m
    /\ Forall (fun v => (height_of v = 3 - 6 / 2 \/ height_of v = 3 + 6 / 2)
                        /\ on_ring_or_axis (0, 0, 3) 1 v) (fst m).
Proof. apply (cylinder_vertices_on_cylinder (0, 0, 3) 1 6 20). lia. Defined.

(** X13. With a non-negative segment count the cone is returned, and,
    over real arithmetic, each of its vertices is the apex, at center_z + height on the axis,
    or lies at height center_z, on the base circle or at its center. *)
Theorem cone_vertices_on_cone :
  forall (center : vec3) (radius height : R) (segments : Z),
    (0 <= segments)%Z ->
    exists m,
      create_cone_mesh center radius height segments = Ok m
      /\ Forall (fun v =>
                   v = (fst (fst center), snd (fst center), snd center + height)
                   \/ (height_of v = snd center /\ on_ring_or_axis center radius v))
                (fst m).
Proof.
  intros [[c0 c1] c2] radius height segments Hs.
  destruct (linspace_ok 0 (2 * Np.pi) segments Hs) as [theta [Hl _]].
  pose proof (cone_vertices c0 c1 c2 radius height segments theta Hl) as Hv.
  destruct (create_cone_mesh (c0, c1, c2) radius height segments) as [m|e];
    [|discriminate].
  exists m. split; [reflexivity|].
  cbn [fmap Py.bind] in Hv. apply Ok_inj in Hv. rewrite Hv.
  rewrite !Forall_app. repeat split.
  - apply Forall_map_intro. intros t _. right. split; [reflexivity | apply on_ring].
  - apply Forall_cons; [now left|].
    apply Forall_cons; [right; split; [reflexivity | right; now split]|].
    apply Forall_nil.
Qed.

Lemma cone_vertices_on_cone_witness :
  exists m,
    create_cone_mesh (0, 0, 0) 1 3 20 = Ok m
    /\ Forall (fun v => v = (0, 0, 0 + 3)
                        \/ (height_of v = 0 /\ on_ring_or_axis (0, 0, 0) 1 v)) (fst m).
Proof. apply (cone_vertices_on_cone (0, 0, 0) 1 3 20). lia. Defined.

Lemma sphere_as_grid center radius segments :
  segments <> 0%Z ->
  fmap fst (create_sphere_mesh center radius segments)
  = Ok (flat_map (fun i => map (sphere_vertex center radius segments i)
                               (range (segments + 1)))
                 (range (segments + 1))).
Proof.
  intros H. destruct center as [[c0 c1] c2]. unfold create_sphere_mesh.
  destruct (Z.eqb_spec segments 0); [contradiction|]. reflexivity.
Qed.

Lemma torus_as_grid center major_radius minor_radius major_segments minor_segments :
  fst (create_torus_mesh center major_radius minor_radius major_segments minor_segments)
  = flat_map (fun i => map (torus_vertex center major_radius minor_radius
                                         major_segments minor_segments i)
                           (range minor_segments))
             (range major_segments).
Proof. destruct center as [[c0 c1] c2]. reflexivity. Qed.

Lemma sphere_vertex_on_sphere center radius segments i j :
  dist2 (sphere_vertex center radius segments i j) center = radius * radius.
Proof.
  destruct center as [[c0 c1] c2]. unfold sphere_vertex, dist2.
  set (lat := Np.pi * (-0.5 + IZR i / IZR segments)).
  set (lon := 2 * Np.pi * IZR j / IZR segments).
  pose proof (sin2_cos2_prod lat) as H1. pose proof (sin2_cos2_prod lon) as H2.
  assert (Ha : cos lat * cos lat = 1 - sin lat * sin lat) by (rewrite <- H1; ring).
  assert (Ho : cos lon * cos lon = 1 - sin lon * sin lon) by (rewrite <- H2; ring).
  ring [Ha Ho].
Qed.

Lemma torus_vertex_on_torus center major_radius minor_radius major_segments
      minor_segments i j :
  on_torus center major_radius minor_radius
           (torus_vertex center major_radius minor_radius
                         major_segments minor_segments i j).
Proof.
  destruct center as [[c0 c1] c2]. unfold torus_vertex, on_torus.
  set (phi := 2 * Np.pi * IZR i / IZR major_segments).
  set (theta := 2 * Np.pi * IZR j / IZR minor_segments).
  pose proof (sin2_cos2_prod phi) as H1. pose proof (sin2_cos2_prod theta) as H2.
  assert (Hp : cos phi * cos phi = 1 - sin phi * sin phi) by (rewrite <- H1; ring).
  assert (Ht : cos theta * cos theta = 1 - sin theta * sin theta)
    by (rewrite <- H2; ring).
  cbv zeta. ring [Hp Ht].
Qed.

(** X14. With a non-zero segment count the sphere is returned and,
    over real arithmetic, each of its vertices is at distance [radius]
    from the center (squared distance radius^2). *)
Theorem sphere_vertices_on_sphere :
  forall (center : vec3) (radius : R) (segments : Z),
    segments <> 0%Z ->
    exists m,
      create_sphere_mesh center radius segments = Ok m
      /\ Forall (fun v => dist2 v center = radius * radius) (fst m).
Proof.
  intros center radius segments Hs.
  pose proof (sphere_as_grid center radius segments Hs) as Hv.
  destruct (create_sphere_mesh center radius segments) as [m|e]; [|discriminate].
  exists m. split; [reflexivity|].
  cbn [fmap Py.bind] in Hv. apply Ok_inj in Hv. rewrite Hv.
  apply Forall_flat_map_intro. intros i _. apply Forall_map_intro. intros j _.
  apply sphere_vertex_on_sphere.
Qed.

Lemma sphere_vertices_on_sphere_witness :
  exists m,
    create_sphere_mesh (0, 0, 0) 0.3 20 = Ok m
    /\ Forall (fun v => dist2 v (0, 0, 0) = 0.3 * 0.3) (fst m).
Proof. apply (sphere_vertices_on_sphere (0, 0, 0) 0.3 20). discriminate. Defined.

(** X15. Over real arithmetic, every vertex of a torus satisfies the
    implicit equation of the torus of the given center and radii:
    (d^2 + dz^2 + R^2 - r^2)^2 = 4 R^2 d^2, with d the distance from
    the axis and dz the height above the center. *)
Theorem torus_vertices_on_torus :
  forall (center : vec3) (major_radius minor_radius : R)
         (major_segments minor_segments : Z),
    Forall (on_torus center major_radius minor_radius)
           (fst (create_torus_mesh center major_radius minor_radius
                                   major_segments minor_segments)).
Proof.
  intros. rewrite torus_as_grid.
  apply Forall_flat_map_intro. intros i _. apply Forall_map_intro. intros j _.
  apply torus_vertex_on_torus.
Qed.

End MeshGeometry.

(** ** How the vertex arrays are laid out *)

Section MeshLayout.

Lemma nth_error_range (n i : Z) :
  (0 <= i < n)%Z -> nth_error (range n) (Z.to_nat i) = Some i.
Proof.
  intros H. unfold range. rewrite nth_error_map.
  rewrite (nth_error_nth' _ 0%nat) by (rewrite length_seq; lia).
  rewrite seq_nth by lia. cbn. f_equal. lia.
Qed.

Lemma nth_error_flat_map_grid {A B} (f : A -> list B) (k : nat) (l : list A)
      (a b : nat) (x : A) :
  (forall y, length (f y) = k) ->
  nth_error l a = Some x -> (b < k)%nat ->
  nth_error (flat_map f l) (a * k + b) = nth_error (f x) b.
Proof.
  intros Hk. revert a. induction l as [|y l IH]; intros [|a] Hx Hb;
    try discriminate Hx; cbn [flat_map].
  - cbn in Hx. injection Hx as ->. cbn [Nat.mul Nat.add].
    apply nth_error_app1. now rewrite Hk.
  - cbn in Hx. rewrite nth_error_app2 by (rewrite Hk; lia).
    rewrite Hk. replace (S a * k + b - k)%nat with (a * k + b)%nat by lia.
    now apply IH.
Qed.

Lemma nth_error_grid {B} (g : Z -> Z -> B) (rows cols i j : Z) :
  (0 <= i < rows)%Z -> (0 <= j < cols)%Z ->
  nth_error (flat_map (fun i => map (g i) (range cols)) (range rows))
            (Z.to_nat (i * cols + j))
  = Some (g i j).
Proof.
  intros Hi Hj.
  replace (Z.to_nat (i * cols + j)) with (Z.to_nat i * Z.to_nat cols + Z.to_nat j)%nat
    by nia.
  rewrite nth_error_flat_map_grid with (x := i) (k := Z.to_nat cols).
  - rewrite nth_error_map, nth_error_range by assumption. reflexivity.
  - intros y. now rewrite length_map, range_length.
  - now apply nth_error_range.
  - lia.
Qed.

Lemma sphere_vertex_at center radius segments i j m :
  (0 < segments)%Z -> (0 <= i <= segments)%Z -> (0 <= j <= segments)%Z ->
  create_sphere_mesh center radius segments = Ok m ->
  nth_error (fst m) (Z.to_nat (i * (segments + 1) + j))
  = Some (sphere_vertex center radius segments i j).
Proof.
  intros Hs Hi Hj Hm.
  pose proof (sphere_as_grid center radius segments ltac:(lia)) as Hv.
  rewrite Hm in Hv. cbn [fmap Py.bind] in Hv. apply Ok_inj in Hv. rewrite Hv.
  apply nth_error_grid with (g := sphere_vertex center radius segments); lia.
Qed.

Lemma sphere_returns center radius segments :
  (0 < segments)%Z -> exists m, create_sphere_mesh center radius segments = Ok m.
Proof.
  intros H. destruct center as [[c0 c1] c2]. unfold create_sphere_mesh.
  destruct (Z.eqb_spec segments 0); [lia|]. eauto.
Qed.

(** X16. The vertex arrays are row-major grids.  With positive counts,
    the sphere's vertex of index i * (segments + 1) + j is the point
    computed for ring i and column j (0 <= i, j <= segments), and the
    torus's vertex of index i * minor_segments + j is the point
    computed for step i of the main ring and step j of the tube; these
    are the index formulas the face loops use. *)
Theorem grid_vertex_at :
  forall (center : vec3) (radius major_radius minor_radius : R)
         (segments major_segments minor_segments i j i' j' : Z),
    (0 < segments)%Z -> (0 <= i <= segments)%Z -> (0 <= j <= segments)%Z ->
    (0 <= i' < major_segments)%Z -> (0 <= j' < minor_segments)%Z ->
    (exists m,
        create_sphere_mesh center radius segments = Ok m
        /\ nth_error (fst m) (Z.to_nat (i * (segments + 1) + j))
           = Some (sphere_vertex center radius segments i j))
    /\ nth_error (fst (create_torus_mesh center major_radius minor_radius
                                         major_segments minor_segments))
                 (Z.to_nat (i' * minor_segments + j'))
       = Some (torus_vertex center major_radius minor_radius
                            major_segments minor_segments i' j').
Proof.
  intros center radius major_radius minor_radius segments major_segments
         minor_segments i j i' j' Hs Hi Hj Hi' Hj'.
  split.
  - destruct (sphere_returns center radius segments Hs) as [m Hm].
    exists m. split; [exact Hm|]. now apply sphere_vertex_at.
  - rewrite torus_as_grid.
    now apply nth_error_grid
      with (g := torus_vertex center major_radius minor_radius
                              major_segments minor_segments).
Qed.

Lemma grid_vertex_at_witness :
  (exists m,
      create_sphere_mesh (0, 0, 0)%R 1%R 20 = Ok m
      /\ nth_error (fst m) (Z.to_nat (3 * (20 + 1) + 20))
         = Some (sphere_vertex (0, 0, 0)%R 1%R 20 3 20))
  /\ nth_error (fst (create_torus_mesh (0, 0, 0)%R 1%R (1 / 5)%R 30 15))
               (Z.to_nat (29 * 15 + 14))
     = Some (torus_vertex (0, 0, 0)%R 1%R (1 / 5)%R 30 15 29 14).
Proof.
  apply (grid_vertex_at (0, 0, 0)%R 1%R 1%R (1 / 5)%R 20 30 15 3 20 29 14); lia.
Defined.

Local Open Scope R_scope.

Lemma sphere_vertex_seam center radius segments i :
  segments <> 0%Z ->
  sphere_vertex center radius segments i 0
  = sphere_vertex center radius segments i segments.
Proof.
  intros Hs. apply not_0_IZR in Hs. destruct center as [[c0 c1] c2].
  unfold sphere_vertex, Np.pi.
  replace (2 * PI * IZR 0 / IZR segments) with 0 by (field; assumption).
  replace (2 * PI * IZR segments / IZR segments) with (2 * PI) by (field; assumption).
  now rewrite cos_0, sin_0, cos_2PI, sin_2PI.
Qed.

Lemma sphere_vertex_poles center radius segments j :
  segments <> 0%Z ->
  sphere_vertex center radius segments 0 j
  = (fst (fst center), snd (fst center), snd center - radius)
  /\ sphere_vertex center radius segments segments j
     = (fst (fst center), snd (fst center), snd center + radius).
Proof.
  intros Hs. apply not_0_IZR in Hs. destruct center as [[c0 c1] c2].
  unfold sphere_vertex, Np.pi. cbn [fst snd].
  replace (IZR 0 / IZR segments) with 0 by (field; assumption).
  replace (IZR segments / IZR segments) with 1 by (field; assumption).
  replace (PI * (-0.5 + 0)) with (- (PI / 2)) by lra.
  replace (PI * (-0.5 + 1)) with (PI / 2) by lra.
  rewrite cos_neg, sin_neg, cos_PI2, sin_PI2. split; apply vec3_ext; ring.
Qed.

(** X17. Over real arithmetic the sphere repeats vertices.  With a
    positive segment count, on each ring the first and the last vertex
    (columns 0 and [segments]) are one point, the seam; the whole first
    ring is the south pole (center_z - radius on the axis) and the
    whole last ring the north pole (center_z + radius). *)
Theorem sphere_seam_and_poles :
  forall (center : vec3) (radius : R) (segments i j : Z),
    (0 < segments)%Z -> (0 <= i <= segments)%Z -> (0 <= j <= segments)%Z ->
    exists m,
      create_sphere_mesh center radius segments = Ok m
      /\ nth_error (fst m) (Z.to_nat (i * (segments + 1) + 0))
         = nth_error (fst m) (Z.to_nat (i * (segments + 1) + segments))
      /\ nth_error (fst m) (Z.to_nat (0 * (segments + 1) + j))
         = Some (fst (fst center), snd (fst center), snd center - radius)
      /\ nth_error (fst m) (Z.to_nat (segments * (segments + 1) + j))
         = Some (fst (fst center), snd (fst center), snd center + radius).
Proof.
  intros center radius segments i j Hs Hi Hj.
  destruct (sphere_returns center radius segments Hs) as [m Hm].
  exists m. split; [exact Hm|].
  rewrite !(sphere_vertex_at center radius segments) by (assumption || lia).
  destruct (sphere_vertex_poles center radius segments j ltac:(lia)) as [-> ->].
  rewrite (sphere_vertex_seam center radius segments i) by lia.
  repeat split.
Qed.

Lemma sphere_seam_and_poles_witness :
  exists m,
    create_sphere_mesh (0, 0, 0) 1 20 = Ok m
    /\ nth_error (fst m) (Z.to_nat (7 * (20 + 1) + 0))
       = nth_error (fst m) (Z.to_nat (7 * (20 + 1) + 20))
    /\ nth_error (fst m) (Z.to_nat (0 * (20 + 1) + 5)) = Some (0, 0, 0 - 1)
    /\ nth_error (fst m) (Z.to_nat (20 * (20 + 1) + 5)) = Some (0, 0, 0 + 1).
Proof. apply (sphere_seam_and_poles (0, 0, 0) 1 20 7 5); lia. Defined.

End MeshLayout.

(** ** Faces without a repeated index *)

Section DistinctIndices.

Lemma next_mod (i s : Z) :
  (2 <= s)%Z -> (0 <= i < s)%Z ->
  ((i + 1) mod s <> i /\ 0 <= (i + 1) mod s < s)%Z.
Proof.
  intros Hs Hi. split; [|apply Z.mod_pos_bound; lia].
  destruct (Z.eq_dec (i + 1) s) as [E|E].
  - rewrite E, Z.mod_same by lia. lia.
  - rewrite Z.mod_small by lia. lia.
Qed.

Lemma different_rows (m i a j b : Z) :
  (0 < m)%Z -> i <> a -> (0 <= j < m)%Z -> (0 <= b < m)%Z ->
  (i * m + j <> a * m + b)%Z.
Proof. intros Hm Hia Hj Hb E. assert (i < a \/ a < i)%Z as [H|H] by lia; nia. Qed.

Ltac distinct_by_lia := unfold distinct_indices; repeat split; lia.

Lemma cube_distinct center size :
  Forall distinct_indices (snd (create_cube_mesh center size)).
Proof.
  destruct center as [[x y] z], size as [[s0 s1] s2]. cbn [create_cube_mesh snd].
  repeat (apply Forall_cons; [distinct_by_lia|]). apply Forall_nil.
Qed.

Lemma cylinder_distinct center radius height segments :
  (2 <= segments)%Z ->
  exists m, create_cylinder_mesh center radius height segments = Ok m
            /\ Forall distinct_indices (snd m).
Proof.
  intros H. destruct center as [[c0 c1] c2]. unfold create_cylinder_mesh.
  destruct (linspace_ok 0 (2 * Np.pi) segments ltac:(lia)) as [theta [-> _]].
  cbn [Py.bind]. eexists. split; [reflexivity|]. unfold snd.
  repeat rewrite Forall_app. repeat split.
  - apply Forall_map_intro. intros i Hi%in_range.
    destruct (next_mod i segments H Hi). distinct_by_lia.
  - apply Forall_map_intro. intros i Hi%in_range.
    destruct (next_mod i segments H Hi). distinct_by_lia.
  - apply Forall_flat_map_intro. intros i Hi%in_range.
    destruct (next_mod i segments H Hi).
    repeat (apply Forall_cons; [distinct_by_lia|]). apply Forall_nil.
Qed.

Lemma cone_distinct center radius height segments :
  (2 <= segments)%Z ->
  exists m, create_cone_mesh center radius height segments = Ok m
            /\ Forall distinct_indices (snd m).
Proof.
  intros H. destruct center as [[c0 c1] c2]. unfold create_cone_mesh.
  destruct (linspace_ok 0 (2 * Np.pi) segments ltac:(lia)) as [theta [-> _]].
  cbn [Py.bind]. eexists. split; [reflexivity|]. unfold snd.
  repeat rewrite Forall_app. repeat split.
  - apply Forall_map_intro. intros i Hi%in_range.
    destruct (next_mod i segments H Hi). distinct_by_lia.
  - apply Forall_map_intro. intros i Hi%in_range.
    destruct (next_mod i segments H Hi). distinct_by_lia.
Qed.

Lemma sphere_distinct center radius segments :
  (0 < segments)%Z ->
  exists m, create_sphere_mesh center radius segments = Ok m
            /\ Forall distinct_indices (snd m).
Proof.
  intros H. destruct center as [[c0 c1] c2]. unfold create_sphere_mesh.
  destruct (Z.eqb_spec segments 0); [lia|].
  eexists. split; [reflexivity|]. unfold snd.
  apply Forall_flat_map_intro. intros i Hi%in_range.
  apply Forall_flat_map_intro. intros j Hj%in_range.
  repeat (apply Forall_cons; [unfold distinct_indices; repeat split; nia|]).
  apply Forall_nil.
Qed.

Lemma torus_distinct center major_radius minor_radius major_segments minor_segments :
  (2 <= major_segments)%Z -> (2 <= minor_segments)%Z ->
  Forall distinct_indices
         (snd (create_torus_mesh center major_radius minor_radius
                                 major_segments minor_segments)).
Proof.
  intros HM Hm. destruct center as [[c0 c1] c2]. cbn [create_torus_mesh snd].
  apply Forall_flat_map_intro. intros i Hi%in_range.
  apply Forall_flat_map_intro. intros j Hj%in_range.
  destruct (next_mod i major_segments HM Hi) as [Ha Ha'].
  destruct (next_mod j minor_segments Hm Hj) as [Hb Hb'].
  assert (Hne : forall a b : Z, a <> b -> b <> a) by (intros; congruence).
  repeat (apply Forall_cons;
          [unfold distinct_indices; repeat split;
           solve [ lia | apply different_rows; lia
                 | apply Hne, different_rows; lia ]|]).
  apply Forall_nil.
Qed.

(** X18. No face names a vertex twice: the three indices of every face
    are pairwise different, for the cube always, for the cylinder and
    the cone with at least 2 segments, for the sphere with a positive
    count and for the torus with at least 2 segments each way. *)
Theorem faces_have_distinct_indices :
  forall (center size : vec3) (radius height major_radius minor_radius : R)
         (segments sphere_segments major_segments minor_segments : Z),
    (2 <= segments)%Z -> (0 < sphere_segments)%Z ->
    (2 <= major_segments)%Z -> (2 <= minor_segments)%Z ->
    Forall distinct_indices (snd (create_cube_mesh center size))
    /\ (exists m, create_cylinder_mesh center radius height segments = Ok m
                  /\ Forall distinct_indices (snd m))
    /\ (exists m, create_cone_mesh center radius height segments = Ok m
                  /\ Forall distinct_indices (snd m))
    /\ (exists m, create_sphere_mesh center radius sphere_segments = Ok m
                  /\ Forall distinct_indices (snd m))
    /\ Forall distinct_indices
              (snd (create_torus_mesh center major_radius minor_radius
                                      major_segments minor_segments)).
Proof.
  intros. split; [apply cube_distinct|].
  split; [now apply cylinder_distinct|].
  split; [now apply cone_distinct|].
  split; [now apply sphere_distinct|].
  now apply torus_distinct.
Qed.

Lemma faces_have_distinct_indices_witness :
  Forall distinct_indices (snd (create_cube_mesh (0, 0, 0)%R (1, 1, 1)%R))
  /\ (exists m, create_cylinder_mesh (0, 0, 0)%R 1%R 6%R 20 = Ok m
                /\ Forall distinct_indices (snd m))
  /\ (exists m, create_cone_mesh (0, 0, 0)%R 1%R 6%R 20 = Ok m
                /\ Forall distinct_indices (snd m))
  /\ (exists m, create_sphere_mesh (0, 0, 0)%R 1%R 20 = Ok m
                /\ Forall distinct_indices (snd m))
  /\ Forall distinct_indices
            (snd (create_torus_mesh (0, 0, 0)%R 1%R (1 / 5)%R 30 15)).
Proof.
  apply (faces_have_distinct_indices (0, 0, 0)%R (1, 1, 1)%R 1%R 6%R 1%R (1 / 5)%R
                                     20 20 30 15); lia.
Defined.

(** With a single segment the wrap-around index meets the index itself:
    the first cap face of the cylinder is (0, 0, 2). *)
Example cylinder_1_repeats_an_index :
  fmap (fun m => hd_error (snd m)) (create_cylinder_mesh (0, 0, 0)%R 1%R 1%R 1)
  = Ok (Some (0, 0, 2)%Z).
Proof. reflexivity. Qed.

End DistinctIndices.

(** ** The loop over the transformations *)

Section TransformationLoop.
Local Open Scope string_scope.
Local Open Scope list_scope.

Lemma arity_unknown (t : string) :
  arity t = None <-> ~ In t known_transformations.
Proof.
  unfold arity, known_transformations. cbn [In].
  repeat match goal with
         | |- context [String.eqb t ?k] =>
             destruct (String.eqb_spec t k);
             [split; [discriminate | intros H; exfalso; apply H; intuition congruence]|]
         end.
  split; [|reflexivity]. intros _ H. intuition congruence.
Qed.

Lemma call_star1_cases callee f params :
  (length params = 1%nat ->
   exists a, params = [a] /\ call_star1 callee f params = IO.ret (f a))
  /\ (length params <> 1%nat -> call_star1 callee f params = IO.raise (TypeError callee)).
Proof.
  destruct params as [|a [|b l]]; cbn; split; intros H;
    try discriminate; try contradiction; try reflexivity; eauto.
Qed.

Lemma call_star3_cases callee f params :
  (length params = 3%nat ->
   exists a b c, params = [a; b; c] /\ call_star3 callee f params = IO.ret (f a b c))
  /\ (length params <> 3%nat -> call_star3 callee f params = IO.raise (TypeError callee)).
Proof.
  destruct params as [|a [|b [|c [|d l]]]]; cbn; split; intros H;
    try discriminate; try contradiction; try reflexivity; eauto.
Qed.

Lemma apply_transform_known vertices type params k :
  arity type = Some k ->
  (length params = k ->
   exists vertices', apply_transform vertices (Transform type params) = ([], Ok vertices')
                     /\ length vertices' = length vertices)
  /\ (length params <> k ->
      apply_transform vertices (Transform type params) = ([], Raise (TypeError type))).
Proof.
  rewrite apply_transform_eq. unfold arity.
  destruct (String.eqb_spec type "translate") as [->|_].
  { intros H. injection H as <-.
    destruct (call_star3_cases "translate" (translate vertices) params) as [H3 Hn].
    split; [|exact Hn]. intros Hl. destruct (H3 Hl) as (a & b & c & _ & ->).
    eexists. split; [reflexivity|]. unfold translate, Np.add_row. apply length_map. }
  destruct (String.eqb_spec type "rotate_x") as [->|_].
  { intros H. injection H as <-.
    destruct (call_star1_cases "rotate_x" (rotate_x vertices) params) as [H1 Hn].
    split; [|exact Hn]. intros Hl. destruct (H1 Hl) as (a & _ & ->).
    eexists. split; [reflexivity|]. unfold rotate_x, Np.matmul. apply length_map. }
  destruct (String.eqb_spec type "rotate_y") as [->|_].
  { intros H. injection H as <-.
    destruct (call_star1_cases "rotate_y" (rotate_y vertices) params) as [H1 Hn].
    split; [|exact Hn]. intros Hl. destruct (H1 Hl) as (a & _ & ->).
    eexists. split; [reflexivity|]. unfold rotate_y, Np.matmul. apply length_map. }
  destruct (String.eqb_spec type "rotate_z") as [->|_].
  { intros H. injection H as <-.
    destruct (call_star1_cases "rotate_z" (rotate_z vertices) params) as [H1 Hn].
    split; [|exact Hn]. intros Hl. destruct (H1 Hl) as (a & _ & ->).
    eexists. split; [reflexivity|]. unfold rotate_z, Np.matmul. apply length_map. }
  destruct (String.eqb_spec type "scale") as [->|_].
  { intros H. injection H as <-.
    destruct (call_star3_cases "scale" (scale vertices) params) as [H3 Hn].
    split; [|exact Hn]. intros Hl. destruct (H3 Hl) as (a & b & c & _ & ->).
    eexists. split; [reflexivity|]. unfold scale, Np.mul_row. apply length_map. }
  discriminate.
Qed.

(** One step of the loop keeps the number of vertices. *)
Lemma apply_transform_length vertices info vertices' :
  outcome (apply_transform vertices info) = Ok vertices' ->
  length vertices' = length vertices.
Proof.
  destruct info as [[type|] [params|]]; try discriminate.
  change (Entry (Some type) (Some params)) with (Transform type params).
  destruct (arity type) as [k|] eqn:Ha.
  - destruct (apply_transform_known vertices type params k Ha) as [Hok Hbad].
    destruct (Nat.eq_dec (length params) k) as [E|E].
    + destruct (Hok E) as (v & -> & Hl). cbn. intros H. apply Ok_inj in H. now subst.
    + rewrite (Hbad E). discriminate.
  - apply arity_unknown in Ha. rewrite (apply_transform_unknown vertices type params Ha).
    cbn. intros H. apply Ok_inj in H. now subst.
Qed.

Lemma apply_transformations_length infos vertices vertices' :
  outcome (apply_transformations infos vertices) = Ok vertices' ->
  length vertices' = length vertices.
Proof.
  revert vertices. induction infos as [|info infos IH]; intros vertices.
  - cbn. intros H. apply Ok_inj in H. now subst.
  - cbn [apply_transformations]. rewrite bind_outcome.
    destruct (outcome (apply_transform vertices info)) as [v|e] eqn:E; [|discriminate].
    intros H. rewrite (IH _ H). now apply apply_transform_length with (info := info).
Qed.

(** X19. An entry of known type with the wrong number of parameters
    stops the loop: once the entries before it have run, the TypeError
    of the call is raised, what those entries printed stays printed,
    and no later entry runs. *)
Theorem apply_transformations_wrong_arity :
  forall (pre post : list transform_info) (type : string) (params : list R) (k : nat)
         (vertices vertices1 : list vec3),
    arity type = Some k ->
    length params <> k ->
    outcome (apply_transformations pre vertices) = Ok vertices1 ->
    apply_transformations (pre ++ Transform type params :: post) vertices
    = (stdout (apply_transformations pre vertices), Raise (TypeError type)).
Proof.
  intros pre post type params k vertices vertices1 Ha Hl Hpre.
  rewrite apply_transformations_app.
  destruct (apply_transformations pre vertices) as [out [v|e]]; [|discriminate].
  cbn [IO.bind apply_transformations stdout fst].
  destruct (apply_transform_known v type params k Ha) as [_ ->]; [|assumption].
  cbn. now rewrite app_nil_r.
Qed.

Lemma apply_transformations_wrong_arity_witness :
  apply_transformations
    ([Transform "wobble" []] ++ Transform "rotate_z" [1; 2]%R
                             :: [Transform "shear" []]) [origin]
  = (stdout (apply_transformations [Transform "wobble" []] [origin]),
     Raise (TypeError "rotate_z")).
Proof.
  apply (apply_transformations_wrong_arity
           [Transform "wobble" []] [Transform "shear" []]
           "rotate_z" [1; 2]%R 1 [origin] [origin]);
    [reflexivity | cbn; lia | reflexivity].
Defined.

Lemma apply_transformations_all_right infos vertices :
  Forall right_arity infos ->
  exists vertices',
    apply_transformations infos vertices = (warnings infos, Ok vertices').
Proof.
  intros H. revert vertices. induction H as [|info infos Hinfo _ IH]; intros vertices.
  - now exists vertices.
  - cbn [apply_transformations]. unfold warnings in *. cbn [flat_map].
    unfold entry_warnings, right_arity in *.
    destruct info as [[type|] [params|]]; try contradiction. cbn [t_type t_params] in *.
    change (Entry (Some type) (Some params)) with (Transform type params).
    destruct (arity type) as [k|] eqn:Ha.
    + destruct (apply_transform_known vertices type params k Ha) as [Hok _].
      destruct (Hok Hinfo) as (v & -> & _). cbn [IO.bind].
      destruct (IH v) as [v' ->]. exists v'. reflexivity.
    + apply arity_unknown in Ha.
      rewrite (apply_transform_unknown vertices type params Ha).
      cbn [IO.bind]. destruct (IH vertices) as [v' ->]. exists v'. reflexivity.
Qed.

(** X20. When every entry has both of its keys and every entry of
    known type has the number of parameters its function takes, the
    loop returns a vertex set of the same size and prints exactly one
    warning per entry of unknown type, in the order of the entries. *)
Theorem apply_transformations_succeeds :
  forall (infos : list transform_info) (vertices : list vec3),
    Forall right_arity infos ->
    exists vertices',
      apply_transformations infos vertices = (warnings infos, Ok vertices')
      /\ length vertices' = length vertices.
Proof.
  intros infos vertices H.
  destruct (apply_transformations_all_right infos vertices H) as [v' E].
  exists v'. split; [exact E|].
  apply apply_transformations_length with (infos := infos). now rewrite E.
Qed.

Lemma apply_transformations_succeeds_witness :
  exists vertices',
    apply_transformations
      [Transform "wobble" []; Transform "translate" [0; 0; 1]%R;
       Transform "shear" [2]%R] [origin]
    = (["Warning: Unknown transformation type: wobble";
        "Warning: Unknown transformation type: shear"], Ok vertices')
    /\ length vertices' = length [origin].
Proof.
  apply (apply_transformations_succeeds
           [Transform "wobble" []; Transform "translate" [0; 0; 1]%R;
            Transform "shear" [2]%R] [origin]).
  repeat constructor.
Defined.

End TransformationLoop.

(** ** Whole trees *)

Section WholeTrees.
Local Open Scope string_scope.
Local Open Scope list_scope.

(** Induction over a scene graph: a property that holds of a node as
    soon as it holds of the node's children holds of every node. *)
Lemma scene_graph_induction (P : scene_graph_node -> Prop) :
  (forall node,
      (forall cs, children node = Some cs -> Forall P cs) -> P node) ->
  forall node, P node.
Proof.
  intros step. fix IH 1. intros [ty sh co sz ra he ma mi tr ch].
  apply step. cbn [children]. intros cs Hcs. destruct ch as [l|]; [|discriminate].
  injection Hcs as <-. induction l as [|c l IHl]; constructor; [apply IH | exact IHl].
Qed.

Lemma primitive_colors_eq (node : scene_graph_node) :
  primitive_colors node
  = match node_type node with
    | Some type =>
        if type =? "primitive" then
          match color node with Some c => [c] | None => [] end
        else if type =? "group" then
          match children node with
          | Some cs => flat_map primitive_colors cs
          | None => []
          end
        else []
    | None => []
    end.
Proof. destruct node; reflexivity. Qed.

(** What a successful build of a primitive went through. *)
Lemma build_primitive_inv (node : scene_graph_node) (traces : list Mesh3d) :
  outcome (build_primitive node) = Ok traces ->
  exists s c vertices faces infos vertices',
    shape node = Some s /\ color node = Some c
    /\ outcome (initial_mesh s node) = Ok (vertices, faces)
    /\ transformations node = Some infos
    /\ outcome (apply_transformations infos vertices) = Ok vertices'
    /\ traces = [mesh3d vertices' faces c].
Proof.
  unfold build_primitive.
  destruct (shape node) as [s|]; [|discriminate]. cbn [getitem]. rewrite bind_ret_l.
  destruct (color node) as [c|]; [|discriminate]. cbn [getitem]. rewrite bind_ret_l.
  rewrite bind_outcome.
  destruct (outcome (initial_mesh s node)) as [[vertices faces]|] eqn:Em; [|discriminate].
  destruct (transformations node) as [infos|]; [|discriminate].
  cbn [getitem]. rewrite bind_ret_l, bind_outcome.
  destruct (outcome (apply_transformations infos vertices)) as [v|] eqn:Ev;
    [|discriminate].
  cbn. intros H. apply Ok_inj in H. subst traces.
  exists s, c, vertices, faces, infos, v. repeat split; assumption.
Qed.

Lemma initial_mesh_in_range (s : string) (node : scene_graph_node) (m : mesh) :
  outcome (initial_mesh s node) = Ok m -> faces_in_range m.
Proof.
  unfold initial_mesh.
  destruct (s =? "cube").
  { destruct (initial_size node) as [size|]; [|discriminate].
    cbn [getitem]. rewrite !bind_ret_l. unfold IO.ret, outcome. cbn [snd].
    intros H. apply Ok_inj in H. subst m. apply cube_faces_in_range. }
  destruct (s =? "cylinder").
  { destruct (initial_radius node) as [r|]; [|discriminate].
    destruct (initial_height node) as [h|]; [|discriminate].
    cbn [getitem]. rewrite !bind_ret_l. unfold IO.lift, outcome. cbn [snd].
    destruct (cylinder_faces_in_range (0, 0, 0)%R r h 20 ltac:(lia)) as [m' [-> Hm]].
    intros H. apply Ok_inj in H. now subst. }
  destruct (s =? "cone").
  { destruct (initial_radius node) as [r|]; [|discriminate].
    destruct (initial_height node) as [h|]; [|discriminate].
    cbn [getitem]. rewrite !bind_ret_l. unfold IO.lift, outcome. cbn [snd].
    destruct (cone_faces_in_range (0, 0, 0)%R r h 20 ltac:(lia)) as [m' [-> Hm]].
    intros H. apply Ok_inj in H. now subst. }
  destruct (s =? "sphere").
  { destruct (initial_radius node) as [r|]; [|discriminate].
    cbn [getitem]. rewrite !bind_ret_l. unfold IO.lift, outcome. cbn [snd].
    destruct (sphere_faces_in_range (0, 0, 0)%R r 20 ltac:(lia)) as [m' [-> Hm]].
    intros H. apply Ok_inj in H. now subst. }
  destruct (s =? "torus").
  { destruct (initial_major_radius node) as [r|]; [|discriminate].
    destruct (initial_minor_radius node) as [r'|]; [|discriminate].
    cbn [getitem]. rewrite !bind_ret_l. unfold IO.ret, outcome. cbn [snd].
    intros H. apply Ok_inj in H. subst m. apply torus_faces_in_range; lia. }
  discriminate.
Qed.

Lemma mesh3d_well_formed (vertices0 vertices : list vec3) (faces : list face)
      (c : string) :
  faces_in_range (vertices0, faces) ->
  length vertices = length vertices0 ->
  well_formed (mesh3d vertices faces c).
Proof.
  unfold faces_in_range, vertex_count, well_formed, mesh3d, column0, column1, column2.
  cbn [fst snd m_x m_y m_z m_i m_j m_k]. intros H Hl. unfold vec3, face in *.
  rewrite !length_map, Hl. repeat split; try reflexivity.
  rewrite !Forall_app. rewrite Forall_forall in H.
  repeat split; apply Forall_map_intro; intros [[a b] d] Hf;
    specialize (H _ Hf); unfold face_indices in H;
    inversion H as [|? ? Ha H']; inversion H' as [|? ? Hb H'']; inversion H'';
    subst; cbn [fst snd]; assumption.
Qed.

Lemma sequence_ok_inv {A} (ms : list (io A)) (rs : list A) :
  outcome (sequence ms) = Ok rs -> Forall2 (fun m r => outcome m = Ok r) ms rs.
Proof.
  revert rs. induction ms as [|m ms IH]; intros rs.
  - cbn. intros H. apply Ok_inj in H. subst. constructor.
  - cbn [sequence]. rewrite bind_outcome.
    destruct (outcome m) as [a|] eqn:Em; [|discriminate].
    rewrite bind_outcome.
    destruct (outcome (sequence ms)) as [l|] eqn:Es; [|discriminate].
    cbn. intros H. apply Ok_inj in H. subst rs. constructor; [exact Em | now apply IH].
Qed.

(** What a successful build of a group went through. *)
Lemma build_group_inv (cs : list scene_graph_node) (traces : list Mesh3d) :
  outcome (extend_traces build_scene cs []) = Ok traces ->
  exists rs, Forall2 (fun c r => outcome (build_scene c) = Ok r) cs rs
             /\ traces = concat rs.
Proof.
  rewrite extend_traces_sequence, bind_outcome.
  destruct (outcome (sequence (map build_scene cs))) as [rs|] eqn:E; [|discriminate].
  cbn. intros H. apply Ok_inj in H. subst traces. exists rs. split; [|reflexivity].
  apply sequence_ok_inv in E. revert rs E.
  induction cs as [|c cs IH]; intros rs E; inversion E; subst; constructor; auto.
Qed.

Lemma build_scene_sound (node : scene_graph_node) :
  forall traces,
    outcome (build_scene node) = Ok traces ->
    Forall well_formed traces /\ map m_color traces = primitive_colors node.
Proof.
  induction node as [node IH] using scene_graph_induction. intros traces.
  rewrite build_scene_eq, primitive_colors_eq.
  destruct (node_type node) as [type|]; [|discriminate].
  cbn [getitem]. rewrite bind_ret_l.
  destruct (type =? "primitive").
  { intros H. apply build_primitive_inv in H.
    destruct H as (s & c & v0 & f & infos & v & _ & -> & Hm & _ & Hv & ->).
    split; [|reflexivity]. apply Forall_cons; [|apply Forall_nil].
    apply mesh3d_well_formed with (vertices0 := v0).
    - now apply initial_mesh_in_range in Hm.
    - now apply apply_transformations_length in Hv. }
  destruct (type =? "group"); [|cbn; intros H; apply Ok_inj in H; now subst].
  destruct (children node) as [cs|]; [|discriminate].
  specialize (IH cs eq_refl). intros H. apply build_group_inv in H.
  destruct H as [rs [Hrs ->]]. clear node.
  induction Hrs as [|c r cs rs Hc _ IHrs]; [split; [constructor | reflexivity]|].
  inversion IH as [|? ? Pc Pcs]; subst.
  destruct (Pc r Hc) as [Hw Hcol]. destruct (IHrs Pcs) as [Hws Hcols].
  cbn [concat flat_map]. rewrite Forall_app, map_app, Hcol, Hcols. now repeat split.
Qed.

(** X21. Every trace a build returns can be drawn: its three coordinate
    columns have one length, its three index columns have one length,
    and every index addresses a vertex of the trace, whatever the tree
    and the transformations. *)
Theorem build_scene_well_formed :
  forall (node : scene_graph_node) (traces : list Mesh3d),
    outcome (build_scene node) = Ok traces -> Forall well_formed traces.
Proof. intros node traces H. now apply build_scene_sound in H. Qed.

Lemma build_scene_well_formed_witness :
  Forall well_formed (traces_of (build_scene fin_and_ring)).
Proof.
  apply (build_scene_well_formed fin_and_ring (traces_of (build_scene fin_and_ring))).
  reflexivity.
Defined.

(** X22. A build that returns gives one trace per primitive node of the
    tree, in depth-first order with children in list order, each of its
    node's color: nothing is dropped, repeated or reordered, and nodes
    of other types contribute nothing. *)
Theorem build_scene_colors :
  forall (node : scene_graph_node) (traces : list Mesh3d),
    outcome (build_scene node) = Ok traces ->
    map m_color traces = primitive_colors node.
Proof. intros node traces H. now apply build_scene_sound in H. Qed.

Lemma build_scene_colors_witness :
  map m_color (traces_of (build_scene fin_and_ring)) = primitive_colors fin_and_ring.
Proof.
  apply (build_scene_colors fin_and_ring (traces_of (build_scene fin_and_ring))).
  reflexivity.
Defined.

End WholeTrees.

(** ** Missing keys and failing children *)

Section Failures.
Local Open Scope string_scope.
Local Open Scope list_scope.


Lemma sequence_stops {A} (results : list (list string * A)) (out : list string)
      (e : exn) (rest : list (io A)) :
  sequence (map (fun r => (fst r, Ok (snd r))) results ++ (out, Raise e) :: rest)
  = (concat (map fst results) ++ out, Raise e).
Proof.
  induction results as [|[o a] results IH]; [reflexivity|].
  cbn [map app sequence fst snd]. rewrite IH. cbn. now rewrite app_assoc.
Qed.

(** X24. A group stops at its first failing child: when the children
    before it build and it raises, the group raises the same exception,
    the output is what those children and the failing child printed,
    in order, and the children after it are not built. *)
Theorem build_scene_group_failure :
  forall (node child : scene_graph_node) (pre post : list scene_graph_node)
         (results : list (list string * list Mesh3d)) (out : list string) (e : exn),
    node_type node = Some "group" ->
    children node = Some (pre ++ child :: post) ->
    map build_scene pre = map (fun r => (fst r, Ok (snd r))) results ->
    build_scene child = (out, Raise e) ->
    build_scene node = (concat (map fst results) ++ out, Raise e).
Proof.
  intros node child pre post results out e Htype Hchildren Hpre Hchild.
  rewrite (build_scene_group_eq node _ Htype Hchildren).
  assert (E : sequence (map build_scene (pre ++ child :: post))
              = (concat (map fst results) ++ out, Raise e)).
  { rewrite map_app, Hpre. cbn [map]. rewrite Hchild. apply sequence_stops. }
  rewrite E. reflexivity.
Qed.

(** A group whose second child is of an unknown shape. *)
Lemma build_scene_group_failure_witness :
  build_scene (group_node ([fin] ++ pyramid :: [ring]))
  = (concat (map fst [([], traces_of (build_scene fin))]) ++ [],
     Raise (ValueError "Unknown primitive shape: pyramid")).
Proof.
  apply (build_scene_group_failure
           (group_node ([fin] ++ pyramid :: [ring])) pyramid [fin] [ring]
           [([], traces_of (build_scene fin))] []
           (ValueError "Unknown primitive shape: pyramid")); reflexivity.
Defined.

End Failures.

(** ** What a trace holds *)

Section Traces.
Local Open Scope string_scope.
Local Open Scope list_scope.

Lemma column_stack_columns (vertices : list vec3) :
  Np.column_stack (column0 vertices) (column1 vertices) (column2 vertices) = vertices.
Proof.
  unfold Np.column_stack, column0, column1, column2.
  induction vertices as [|[[x y] z] l IH]; [reflexivity|].
  cbn [map combine fst snd]. now rewrite IH.
Qed.

(** X25. The columns of a trace hold the arrays it was made from: the
    coordinate columns zip back to the vertex array and the index
    columns to the face array, and the color is kept. *)
Theorem mesh3d_round_trip :
  forall (vertices : list vec3) (faces : list face) (c : string),
    mesh_vertices (mesh3d vertices faces c) = vertices
    /\ mesh_faces (mesh3d vertices faces c) = faces
    /\ m_color (mesh3d vertices faces c) = c.
Proof.
  intros. split; [apply column_stack_columns|]. split; [|reflexivity].
  unfold mesh_faces, mesh3d. cbn [m_i m_j m_k].
  induction faces as [|[[a b] d] l IH]; [reflexivity|].
  cbn [map combine fst snd]. now rewrite IH.
Qed.

(** X26. The transformations of a primitive node touch its vertex
    coordinates only: if the node builds with a list of entries, its
    trace has the index columns, the color and the number of vertices
    of the trace built with no entry at all. *)
Theorem transformations_leave_faces :
  forall (node : scene_graph_node) (infos : list transform_info),
    node_type node = Some "primitive" ->
    (exists e, outcome (build_scene (with_transformations node infos)) = Raise e)
    \/ fmap (map (fun m => (m_i m, m_j m, m_k m, m_color m, length (m_x m))))
            (outcome (build_scene (with_transformations node infos)))
       = fmap (map (fun m => (m_i m, m_j m, m_k m, m_color m, length (m_x m))))
              (outcome (build_scene (with_transformations node []))).
Proof.
  intros node infos Htype. rewrite !build_scene_primitive by assumption.
  destruct (primitive_head node) as [out [[[vertices faces] c]|e]];
    [|left; exists e; reflexivity].
  cbn [IO.bind primitive_tail apply_transformations].
  destruct (apply_transformations infos vertices) as [out' [v|e]] eqn:E;
    [|left; exists e; reflexivity].
  right. cbn. unfold column0. rewrite !length_map.
  assert (Hl : length v = length vertices)
    by (apply apply_transformations_length with (infos := infos); now rewrite E).
  unfold vec3 in *. now rewrite Hl.
Qed.

Lemma transformations_leave_faces_witness :
  (exists e,
      outcome (build_scene (with_transformations fin [Transform "rotate_x" [10]%R]))
      = Raise e)
  \/ fmap (map (fun m => (m_i m, m_j m, m_k m, m_color m, length (m_x m))))
          (outcome (build_scene (with_transformations fin [Transform "rotate_x" [10]%R])))
     = fmap (map (fun m => (m_i m, m_j m, m_k m, m_color m, length (m_x m))))
            (outcome (build_scene (with_transformations fin []))).
Proof.
  apply (transformations_leave_faces fin [Transform "rotate_x" [10]%R]). reflexivity.
Defined.

End Traces.

(** ** The rocket *)

Section Rocket.
Local Open Scope string_scope.
Local Open Scope list_scope.

(** X27. [create_rocket_figure] returns without raising and without
    printing a warning.  Its figure has the 13 traces of the scene
    graph in order (body, nose cone, three fins, three windows,
    exhaust, two nozzles, two rings) with these colors, vertex counts
    and face counts, and the layout of the script; every trace is well
    formed. *)
Theorem create_rocket_figure_traces :
  stdout create_rocket_figure = []
  /\ fmap (fun fig => map (fun m => (m_color m, length (m_x m), length (m_i m)))
                          (Go.data fig))
          (outcome create_rocket_figure)
     = Ok [ ("silver", 42, 80); ("red", 22, 40);
            ("blue", 8, 12); ("blue", 8, 12); ("blue", 8, 12);
            ("lightblue", 441, 800); ("lightblue", 441, 800); ("lightblue", 441, 800);
            ("darkgrey", 42, 80); ("orange", 22, 40); ("orange", 22, 40);
            ("gold", 450, 900); ("gold", 450, 900) ]%nat
  /\ fmap Go.figure_layout (outcome create_rocket_figure) = Ok rocket_layout
  /\ Forall well_formed (traces_of (build_scene rocket)).
Proof.
  split; [reflexivity|]. split; [reflexivity|]. split; [reflexivity|].
  apply (proj1 (build_scene_sound rocket _ eq_refl)).
Qed.

End Rocket.

(** ** The cube *)

Section Cube.
Local Open Scope R_scope.

(** X28. For any center and size, a point is a vertex of the cube
    exactly when each of its coordinates is the center's minus or plus
    half the size along that axis. *)
Theorem cube_corners :
  forall (center size : vec3) (x y z : R),
    In (x, y, z) (fst (create_cube_mesh center size))
    <-> (x = fst (fst center) - fst (fst size) / 2
         \/ x = fst (fst center) + fst (fst size) / 2)
        /\ (y = snd (fst center) - snd (fst size) / 2
            \/ y = snd (fst center) + snd (fst size) / 2)
        /\ (z = snd center - snd size / 2 \/ z = snd center + snd size / 2).
Proof.
  intros [[c0 c1] c2] [[s0 s1] s2] x y z. cbn [create_cube_mesh fst snd In]. split.
  - intros H. repeat destruct H as [H|H]; try contradiction;
      inversion H; subst; repeat split; auto.
  - intros [[-> | ->] [[-> | ->] [-> | ->]]]; tauto.
Qed.

(** X29. The face table matches its comments: in order, the twelve
    faces are two triangles of the bottom side, two of the top, two of
    the front, two of the back, two of the left and two of the right,
    each with all three corners in the plane of its side. *)
Theorem cube_faces_on_sides :
  forall (center size : vec3),
    Forall2 (face_on_side center size (fst (create_cube_mesh center size)))
            (snd (create_cube_mesh center size))
            [Bottom; Bottom; Top; Top; Front; Front;
             Back; Back; Left; Left; Right; Right].
Proof.
  intros [[c0 c1] c2] [[s0 s1] s2]. cbn [create_cube_mesh fst snd].
  repeat (apply Forall2_cons;
          [unfold face_on_side, face_indices;
           repeat (apply Forall_cons; [eexists; split; [reflexivity|reflexivity]|]);
           apply Forall_nil|]).
  apply Forall2_nil.
Qed.

End Cube.

(** ** Layout of the cylinder and of the cone *)

Section RingLayout.
Local Open Scope R_scope.

Lemma linspace_angles_eq (segments : Z) :
  (0 <= segments)%Z ->
  Np.linspace 0 (2 * Np.pi) segments = Ok (map (angle segments) (range segments)).
Proof.
  intros H. unfold Np.linspace. destruct (Z.ltb_spec segments 0); [lia|]. reflexivity.
Qed.

Lemma nth_error_ring {B} (f : R -> B) (segments i : Z) :
  (0 <= i < segments)%Z ->
  nth_error (map f (map (angle segments) (range segments))) (Z.to_nat i)
  = Some (f (angle segments i)).
Proof. intros H. now rewrite !nth_error_map, nth_error_range. Qed.

(** X30. Where the indices of the cylinder and the cone point.  With
    [0 <= i < segments]: in the cylinder, vertex i is the point of the
    bottom ring at the i-th angle, vertex segments + i the point of the
    top ring straight above it, and vertices 2*segments and
    2*segments + 1 are the centers of the bottom and top caps; in the
    cone, vertex i is the point of the base ring at the i-th angle,
    vertex segments the apex and vertex segments + 1 the base center. *)
Theorem ring_vertex_at :
  forall (c0 c1 c2 radius height : R) (segments i : Z),
    (0 <= i < segments)%Z ->
    let center : vec3 := (c0, c1, c2) in
    let t := angle segments i in
    (exists m,
        create_cylinder_mesh center radius height segments = Ok m
        /\ vertex_at (fst m) i
           = Some (radius * cos t + c0, radius * sin t + c1, c2 - height / 2)
        /\ vertex_at (fst m) (segments + i)
           = Some (radius * cos t + c0, radius * sin t + c1, c2 + height / 2)
        /\ vertex_at (fst m) (2 * segments) = Some (c0, c1, c2 - height / 2)
        /\ vertex_at (fst m) (2 * segments + 1) = Some (c0, c1, c2 + height / 2))
    /\ (exists m,
           create_cone_mesh center radius height segments = Ok m
           /\ vertex_at (fst m) i = Some (radius * cos t + c0, radius * sin t + c1, c2)
           /\ vertex_at (fst m) segments = Some (c0, c1, c2 + height)
           /\ vertex_at (fst m) (segments + 1) = Some (c0, c1, c2)).
Proof.
  intros c0 c1 c2 radius height segments i Hi. cbv zeta.
  pose proof (linspace_angles_eq segments ltac:(lia)) as Hl.
  set (theta := map (angle segments) (range segments)) in *.
  assert (Hlen : length theta = Z.to_nat segments)
    by (unfold theta; now rewrite length_map, range_length).
  split.
  - pose proof (cylinder_vertices c0 c1 c2 radius height segments theta Hl) as Hv.
    destruct (create_cylinder_mesh (c0, c1, c2) radius height segments) as [m|e];
      [|discriminate].
    exists m. split; [reflexivity|].
    cbn [fmap Py.bind] in Hv. apply Ok_inj in Hv. rewrite Hv. unfold vertex_at.
    repeat split.
    + rewrite nth_error_app1 by (rewrite length_map; lia).
      now apply (nth_error_ring (fun t => (radius * cos t + c0, radius * sin t + c1,
                                           c2 - height / 2))).
    + rewrite nth_error_app2 by (rewrite length_map; lia).
      rewrite nth_error_app1 by (rewrite !length_map; lia).
      rewrite length_map, Hlen.
      replace (Z.to_nat (segments + i) - Z.to_nat segments)%nat with (Z.to_nat i) by lia.
      now apply (nth_error_ring (fun t => (radius * cos t + c0, radius * sin t + c1,
                                           c2 + height / 2))).
    + rewrite nth_error_app2 by (rewrite length_map; lia).
      rewrite nth_error_app2 by (rewrite !length_map; lia).
      rewrite !length_map, Hlen.
      now replace (Z.to_nat (2 * segments) - Z.to_nat segments - Z.to_nat segments)%nat
        with 0%nat by lia.
    + rewrite nth_error_app2 by (rewrite length_map; lia).
      rewrite nth_error_app2 by (rewrite !length_map; lia).
      rewrite !length_map, Hlen.
      now replace (Z.to_nat (2 * segments + 1) - Z.to_nat segments
                   - Z.to_nat segments)%nat with 1%nat by lia.
  - pose proof (cone_vertices c0 c1 c2 radius height segments theta Hl) as Hv.
    destruct (create_cone_mesh (c0, c1, c2) radius height segments) as [m|e];
      [|discriminate].
    exists m. split; [reflexivity|].
    cbn [fmap Py.bind] in Hv. apply Ok_inj in Hv. rewrite Hv. unfold vertex_at.
    repeat split.
    + rewrite nth_error_app1 by (rewrite length_map; lia).
      now apply (nth_error_ring (fun t => (radius * cos t + c0, radius * sin t + c1, c2))).
    + rewrite nth_error_app2 by (rewrite length_map; lia).
      rewrite length_map, Hlen.
      now replace (Z.to_nat segments - Z.to_nat segments)%nat with 0%nat by lia.
    + rewrite nth_error_app2 by (rewrite length_map; lia).
      rewrite length_map, Hlen.
      now replace (Z.to_nat (segments + 1) - Z.to_nat segments)%nat with 1%nat by lia.
Qed.

Lemma ring_vertex_at_witness :
  let center : vec3 := (0, 0, 3) in
  let t := angle 20 7 in
  (exists m,
      create_cylinder_mesh center 1 6 20 = Ok m
      /\ vertex_at (fst m) 7 = Some (1 * cos t + 0, 1 * sin t + 0, 3 - 6 / 2)
      /\ vertex_at (fst m) (20 + 7) = Some (1 * cos t + 0, 1 * sin t + 0, 3 + 6 / 2)
      /\ vertex_at (fst m) (2 * 20) = Some (0, 0, 3 - 6 / 2)
      /\ vertex_at (fst m) (2 * 20 + 1) = Some (0, 0, 3 + 6 / 2))
  /\ (exists m,
         create_cone_mesh center 1 6 20 = Ok m
         /\ vertex_at (fst m) 7 = Some (1 * cos t + 0, 1 * sin t + 0, 3)
         /\ vertex_at (fst m) 20 = Some (0, 0, 3 + 6)
         /\ vertex_at (fst m) (20 + 1) = Some (0, 0, 3)).
Proof. apply (ring_vertex_at 0 0 3 1 6 20 7). lia. Defined.

End RingLayout.
